(** * ecgtk: QRS detection, shallow embedding of [ecgtk.py]

    The module is Python 2 with [from __future__ import division]: [/] is
    true division, [//] floors, [%] has the sign of the divisor and [int]
    truncates toward zero.  Sample indices, sampling rates and durations
    are integers ([Z]); sample amplitudes are numpy doubles, embedded as
    exact rationals ([Q]); a raised exception is a value of [result].

    Routines of scipy that the module only calls (the Butterworth design
    behind [_bpfilter], [scipy.linalg.inv], [scipy.signal.lfilter]) are
    parameters of the functions that call them. *)

From Stdlib Require Import ZArith QArith Qround Qabs List String Ascii Lia Bool.
From Stdlib Require Import Sorted.
Import ListNotations.
Local Open Scope Z_scope.

(** ** Exceptions *)

Inductive exn : Type :=
| ValueError (msg : string)
| IndexError
| ZeroDivisionError
| LinAlgError.

Inductive result (A : Type) : Type :=
| Ok (a : A)
| Raise (e : exn).

Arguments Ok {A} a.
Arguments Raise {A} e.

Definition bind {A B : Type} (r : result A) (k : A -> result B) : result B :=
  match r with
  | Ok a => k a
  | Raise e => Raise e
  end.

Notation "x <- r ;; k" := (bind r (fun x => k))
  (at level 61, r at next level, right associativity).

Definition raises {A : Type} (r : result A) : Prop := exists e, r = Raise e.

Definition returns {A : Type} (r : result A) : Prop := exists a, r = Ok a.

(** ** Python numbers *)

(** [int(q)]: truncation toward zero. *)
Definition py_int (q : Q) : Z :=
  if Qle_bool 0 q then Qfloor q else Qceiling q.

Definition Qlt_bool (x y : Q) : bool := negb (Qle_bool y x).

(** [scipy.mean] of a list of amplitudes. *)
Definition Qsum (l : list Q) : Q := fold_right Qplus 0%Q l.

Definition mean (l : list Q) : Q :=
  (Qsum l / inject_Z (Z.of_nat (List.length l)))%Q.

(** ** Unit conversions *)

(** [int(samplingrate * ms / 1000)] *)
Definition _ms_to_samples (ms samplingrate : Z) : Z :=
  py_int (inject_Z samplingrate * inject_Z ms / 1000)%Q.

(** [int(samples * 1000 / samplingrate)]; a zero rate divides by zero. *)
Definition _samples_to_ms (samples samplingrate : Z) : result Z :=
  if samplingrate =? 0 then Raise ZeroDivisionError
  else Ok (py_int (inject_Z samples * 1000 / inject_Z samplingrate)%Q).

(** ** Time stamps *)

Record time : Type := mk_time
  { hour : Z; minute : Z; second : Z; microsecond : Z }.

(** [datetime.time(h, m, s, us)] checks the range of every field. *)
Definition datetime_time (h m s us : Z) : result time :=
  if (0 <=? h) && (h <? 24) && (0 <=? m) && (m <? 60) &&
     (0 <=? s) && (s <? 60) && (0 <=? us) && (us <? 1000000)
  then Ok (mk_time h m s us)
  else Raise (ValueError "field out of range").

Definition digit (d : Z) : ascii := ascii_of_nat (48 + Z.to_nat d).

(** ["%0wd" % n] for a non-negative [n] of at most [w] digits. *)
Fixpoint zfill (w : nat) (n : Z) : string :=
  match w with
  | O => EmptyString
  | S w' => zfill w' (n / 10) ++ String (digit (n mod 10)) EmptyString
  end.

(** [time.isoformat()]: [HH:MM:SS.ffffff], or [HH:MM:SS] when the
    microsecond field is zero. *)
Definition isoformat (t : time) : string :=
  let hms := (zfill 2 (hour t) ++ ":" ++ zfill 2 (minute t) ++ ":" ++
              zfill 2 (second t))%string in
  if microsecond t =? 0 then hms
  else (hms ++ "." ++ zfill 6 (microsecond t))%string.

(** [s[:-3]] *)
Definition drop_last3 (s : string) : string :=
  substring 0 (String.length s - 3) s.

Definition _format_time_wfdb (ms : Z) : result string :=
  let hr := ms / 3600000 mod 24 in
  let minute := ms / 60000 mod 60 in
  let sec := ms / 1000 mod 60 in
  let ms := ms mod 1000 in
  timeobj <- datetime_time hr minute sec (ms * 1000) ;;
  Ok (drop_last3 (isoformat timeobj)).

(** [QRSDetector._sample_to_time] *)
Definition _sample_to_time (samplingrate sample : Z) : result string :=
  if samplingrate =? 0 then Raise ZeroDivisionError
  else
    let time_ms := py_int (inject_Z sample * 1000 / inject_Z samplingrate)%Q in
    let hr := time_ms / 3600000 mod 24 in
    let min := time_ms / 60000 mod 60 in
    let sec := time_ms / 1000 mod 60 in
    let ms := time_ms mod 1000 in
    timeobj <- datetime_time hr min sec (ms * 1000) ;;
    Ok (drop_last3 (isoformat timeobj)).

(** The form [HH:MM:SS.mmm]: twelve characters, digits around the
    separators. *)
Definition is_digit (c : ascii) : bool :=
  let n := nat_of_ascii c in (48 <=? n)%nat && (n <=? 57)%nat.

Definition wfdb_shape (s : string) : bool :=
  match list_ascii_of_string s with
  | [h1; h2; c1; m1; m2; c2; s1; s2; dot; f1; f2; f3] =>
      forallb is_digit [h1; h2; m1; m2; s1; s2; f1; f2; f3] &&
      Ascii.eqb c1 ":" && Ascii.eqb c2 ":" && Ascii.eqb dot "."
  | _ => false
  end.

(** ** Python sequences *)

(** [l[i]]: a negative index counts from the end, an index out of range
    raises. *)
Definition getitem {A : Type} (l : list A) (i : Z) : result A :=
  let n := Z.of_nat (List.length l) in
  let j := if i <? 0 then i + n else i in
  if (0 <=? j) && (j <? n)
  then match nth_error l (Z.to_nat j) with
       | Some a => Ok a
       | None => Raise IndexError
       end
  else Raise IndexError.

Definition clamp_index (n i : Z) : Z :=
  Z.max 0 (Z.min n (if i <? 0 then i + n else i)).

(** [l[a:b]] *)
Definition slice {A : Type} (l : list A) (a b : Z) : list A :=
  let n := Z.of_nat (List.length l) in
  let lo := clamp_index n a in
  let hi := clamp_index n b in
  firstn (Z.to_nat (hi - lo)) (skipn (Z.to_nat lo) l).

(** [range(lo, hi)] *)
Definition range (lo hi : Z) : list Z :=
  map (fun k => lo + Z.of_nat k) (seq 0 (Z.to_nat (hi - lo))).

(** [max(l)] of a non-empty sequence. *)
Definition py_max (l : list Q) : result Q :=
  match l with
  | [] => Raise (ValueError "max() arg is an empty sequence")
  | x :: r => Ok (fold_left (fun m y => if Qlt_bool m y then y else m) r x)
  end.

Fixpoint map2 {A B C : Type} (f : A -> B -> C) (l : list A) (r : list B)
  : list C :=
  match l, r with
  | a :: l', b :: r' => f a b :: map2 f l' r'
  | _, _ => []
  end.

(** [ecg.cumsum()] *)
Fixpoint cumsum_from (acc : Q) (l : list Q) : list Q :=
  match l with
  | [] => []
  | x :: r => (acc + x)%Q :: cumsum_from (acc + x)%Q r
  end.

Definition cumsum (l : list Q) : list Q := cumsum_from 0%Q l.

(** [scipy.diff] *)
Definition diff (l : list Q) : list Q :=
  map2 (fun next prev => (next - prev)%Q) (tl l) l.

(** ** Zero-phase filtering *)

(** The arrays [filtfilt] may be given: what matters of an array that is
    not a vector is the number of its dimensions. *)
Inductive ndarray : Type :=
| Nd0 (v : Q)
| Nd1 (samples : list Q)
| Nd2 (rows : list (list Q)).

Definition ndim (x : ndarray) : Z :=
  match x with
  | Nd0 _ => 0
  | Nd1 _ => 1
  | Nd2 _ => 2
  end.

Definition size (x : ndarray) : Z :=
  match x with
  | Nd0 _ => 1
  | Nd1 samples => Z.of_nat (List.length samples)
  | Nd2 rows =>
      Z.of_nat (List.length rows) * Z.of_nat (List.length (hd [] rows))
  end.

Definition len {A : Type} (l : list A) : Z := Z.of_nat (List.length l).

Definition msg_not_1d : string :=
  "Filtfilt is only accepting 1 dimension arrays.".

Definition msg_too_short : string :=
  "Input vector needs to be bigger than 3 * max(len(a),len(b).".

Definition msg_negative_dim : string :=
  "negative dimensions are not allowed".

Definition msg_shape : string := "array dimensions must agree".

Definition msg_lfilter : string := "scipy.signal.lfilter failed".

(** [scipy.zeros(k)]: numpy refuses a negative dimension. *)
Definition zeros (k : Z) : result (list Q) :=
  if k <? 0 then Raise (ValueError msg_negative_dim)
  else Ok (repeat 0%Q (Z.to_nat k)).

(** [scipy.eye(k)], by rows. *)
Definition eye (k : Z) : result (list (list Q)) :=
  if k <? 0 then Raise (ValueError msg_negative_dim)
  else Ok (map (fun i => map (fun j => if (i =? j)%nat then 1%Q else 0%Q)
                             (seq 0 (Z.to_nat k)))
               (seq 0 (Z.to_nat k))).

Definition ncols (m : list (list Q)) : nat := List.length (hd [] m).

(** [scipy.vstack((top, bottom))]: the rows must have one length. *)
Definition vstack (top bottom : list (list Q)) : result (list (list Q)) :=
  let m := top ++ bottom in
  if forallb (fun r => (List.length r =? ncols m)%nat) m
  then Ok m
  else Raise (ValueError msg_shape).

(** [scipy.hstack((left, right))]: as many rows on both sides. *)
Definition hstack (left right : list (list Q)) : result (list (list Q)) :=
  if (List.length left =? List.length right)%nat
  then Ok (map2 (@app Q) left right)
  else Raise (ValueError msg_shape).

(** An operation on two vectors, a vector of one element being
    stretched to the length of the other. *)
Definition broadcast2 (f : Q -> Q -> Q) (l r : list Q) : result (list Q) :=
  if (List.length l =? List.length r)%nat then Ok (map2 f l r)
  else match l, r with
       | [u], _ => Ok (map (f u) r)
       | _, [v] => Ok (map (fun u => f u v) l)
       | _, _ => Raise (ValueError msg_shape)
       end.

Definition mat_sub (m1 m2 : list (list Q)) : list (list Q) :=
  map2 (map2 Qminus) m1 m2.

Definition dot (u v : list Q) : Q := Qsum (map2 Qmult u v).

(** The product of a square array and a column. *)
Definition mat_vec (m : list (list Q)) (v : list Q) : list Q :=
  map (fun r => dot r v) m.

(** [l[start:stop:-1]] *)
Definition clamp_rev (n i : Z) : Z :=
  let j := if i <? 0 then i + n else i in
  if j <? 0 then -1 else if n <=? j then n - 1 else j.

Definition slice_rev {A : Type} (l : list A) (start stop : Z) : list A :=
  let n := len l in
  let hi := clamp_rev n start in
  let lo := clamp_rev n stop in
  rev (firstn (Z.to_nat (hi - lo)) (skipn (Z.to_nat (lo + 1)) l)).

Definition ntaps (b a : list Q) : Z := Z.max (len a) (len b).

Section Scipy.

(** [scipy.linalg.inv] and [scipy.signal.lfilter(b, a, x, -1, zi)] are
    taken as they come: [None] stands for a raised exception. *)
Variable linalg_inv : list (list Q) -> option (list (list Q)).
Variable lfilter :
  list Q -> list Q -> list Q -> list Q -> option (list Q * list Q).

(** The system of Gustafsson's method: [zin] and [zid]. *)
Definition _lfilter_zin (a : list Q) (n : Z) : result (list (list Q)) :=
  identity <- eye (n - 1) ;;
  let minus_a := map (fun v => [(- v)%Q]) (slice a 1 n) in
  smaller <- eye (n - 2) ;;
  bottom <- zeros (n - 2) ;;
  right <- vstack smaller [bottom] ;;
  companion <- hstack minus_a right ;;
  Ok (mat_sub identity companion).

Definition _lfilter_zi (b a : list Q) : result (list Q) :=
  let n := Z.max (len a) (len b) in
  zin <- _lfilter_zin a n ;;
  b0 <- getitem b 0 ;;
  zid <- broadcast2 (fun bi ai => (bi - ai * b0)%Q) (slice b 1 n) (slice a 1 n) ;;
  match linalg_inv zin with
  | None => Raise LinAlgError
  | Some zinv => Ok (mat_vec zinv zid)
  end.

Definition lfilter_call (b a x zi : list Q) : result (list Q * list Q) :=
  match lfilter b a x zi with
  | None => Raise (ValueError msg_lfilter)
  | Some yz => Ok yz
  end.

(** The signal with its mirrored ends:
    [r_[2*x[0]-x[edge:1:-1], x, 2*x[-1]-x[-1:-edge:-1]]]. *)
Definition grow (x : list Q) (edge : Z) : result (list Q) :=
  first <- getitem x 0 ;;
  final <- getitem x (-1) ;;
  Ok (map (fun v => (2 * first - v)%Q) (slice_rev x edge 1) ++ x ++
      map (fun v => (2 * final - v)%Q) (slice_rev x (-1) (- edge))).

Definition filtfilt (b a : list Q) (x : ndarray) : result (list Q) :=
  let ntaps := Z.max (len a) (len b) in
  let edge := ntaps * 3 in
  match x with
  | Nd1 samples =>
      if size x <? edge then Raise (ValueError msg_too_short)
      else
        let a := if len a <? ntaps
                 then a ++ repeat 0%Q (Z.to_nat (len b - len a)) else a in
        let b := if len b <? ntaps
                 then b ++ repeat 0%Q (Z.to_nat (len a - len b)) else b in
        zi <- _lfilter_zi b a ;;
        s <- grow samples edge ;;
        s0 <- getitem s 0 ;;
        yz <- lfilter_call b a s (map (fun z => (z * s0)%Q) zi) ;;
        let y := fst yz in
        ylast <- getitem y (-1) ;;
        yz' <- lfilter_call b a (rev y) (map (fun z => (z * ylast)%Q) zi) ;;
        let y := fst yz' in
        Ok (rev (slice y (edge - 1) (- edge + 1)))
  | _ => Raise (ValueError msg_not_1d)
  end.

End Scipy.

(** ** The detector *)

(** The recording as [scipy.array(ecgdata, dtype='float')] sees it: a
    vector, or a rectangular array given by its rows (points), each row
    holding one sample per lead. *)
Inductive ecgdata : Type :=
| Vector (samples : list Q)
| Array2 (rows : list (list Q)).

Record QRSDetector : Type := mk_detector
  { data : list (list Q);
    samplingrate : Z;
    points : Z;
    leads : Z }.

Definition shape_of (d : ecgdata) : list (list Q) * Z * Z :=
  match d with
  | Vector samples =>
      (map (fun v => [v]) samples, Z.of_nat (List.length samples), 1)
  | Array2 [] => ([], 0, 1)
  | Array2 ((r :: _) as rows) =>
      (rows, Z.of_nat (List.length rows), Z.of_nat (List.length r))
  end.

(** [QRSDetector.__init__] *)
Definition QRSDetector_init (d : ecgdata) (samplingrate : Z)
  : result QRSDetector :=
  let '(rows, points, leads) := shape_of d in
  if points <? leads
  then Raise (ValueError "ECG data has more columns than rows")
  else if points <? samplingrate * 8
  then Raise (ValueError "Length of ECG is less than 8 seconds")
  else Ok (mk_detector rows samplingrate points leads).

(** The state that [_initializeBuffers], [checkPeaks], [acceptasQRS] and
    [acceptasNoise] keep on the detector object. *)
Record buffers : Type := mk_buffers
  { signal_peak_buffer : list Q;
    noise_peak_buffer : list Q;
    rr_buffer : list Z;
    threshold : Q;
    QRSpeaks : list Z }.

(** The value that [_updateThreshold] computes from the two amplitude
    buffers. *)
Definition threshold_of (signal_buf noise_buf : list Q) : Q :=
  let noise := mean noise_buf in
  let signal := mean signal_buf in
  (noise + 0.3125 * (signal - noise))%Q.

Definition _updateThreshold (st : buffers) : buffers :=
  mk_buffers (signal_peak_buffer st) (noise_peak_buffer st) (rr_buffer st)
             (threshold_of (signal_peak_buffer st) (noise_peak_buffer st))
             (QRSpeaks st).

Fixpoint collect {A : Type} (l : list (result A)) : result (list A) :=
  match l with
  | [] => Ok []
  | r :: rest => a <- r ;; t <- collect rest ;; Ok (a :: t)
  end.

(** [_initializeBuffers]; [QRSpeaks] is not touched, it is passed
    through. *)
Definition _initializeBuffers (samplingrate : Z) (ecg : list Q)
           (QRSpeaks0 : list Z) : result buffers :=
  let onesec := samplingrate in
  signal <- collect (map (fun start =>
              py_max (slice ecg (start * onesec) ((start + 1) * onesec)))
              (range 0 8)) ;;
  Ok (_updateThreshold
        (mk_buffers signal (repeat 0%Q 8) (repeat 1 8) 0%Q QRSpeaks0)).

(** *** peakDetect *)

(** [ecg[i]] where [i] is known to be in range. *)
Definition at_ (ecg : list Q) (i : Z) : Q := nth (Z.to_nat i) ecg 0%Q.

(** [ecg[i-1] < ecg[i] > ecg[i+1]] *)
Definition is_peak (ecg : list Q) (i : Z) : bool :=
  Qlt_bool (at_ ecg (i - 1)) (at_ ecg i) &&
  Qlt_bool (at_ ecg (i + 1)) (at_ ecg i).

(** The comprehension reads [ecg] at [i-1], [i], [i+1] for [i] in
    [range(1, len(ecg)-1)], all in range. *)
Definition peak_indices (ecg : list Q) : list Z :=
  filter (is_peak ecg) (range 1 (Z.of_nat (List.length ecg) - 1)).

Definition peak_amplitudes (ecg : list Q) : list Q :=
  map (at_ ecg) (peak_indices ecg).

Definition minimumRR (samplingrate : Z) : Q :=
  (inject_Z samplingrate * 0.2)%Q.

Record scan : Type := mk_scan
  { unique_peaks : list Z;
    peak_candidate_index : Z;
    peak_candidate_amplitude : Q }.

(** One turn of the loop over [zip(peak_indices, peak_amplitudes)]. *)
Definition scan_step (minimumRR : Q) (s : scan) (p : Z * Q) : scan :=
  let '(peak_index, peak_amplitude) := p in
  if Qle_bool (inject_Z (peak_index - peak_candidate_index s)) minimumRR &&
     Qlt_bool (peak_candidate_amplitude s) peak_amplitude
  then mk_scan (unique_peaks s) peak_index peak_amplitude
  else if Qlt_bool minimumRR (inject_Z (peak_index - peak_candidate_index s))
  then mk_scan (unique_peaks s ++ [peak_candidate_index s])
               peak_index peak_amplitude
  else s.

Definition peakDetect (samplingrate : Z) (ecg : list Q) : result (list Z) :=
  let indices := peak_indices ecg in
  let amplitudes := peak_amplitudes ecg in
  peak_candidate_index <- getitem indices 0 ;;
  peak_candidate_amplitude <- getitem amplitudes 0 ;;
  Ok (unique_peaks
        (fold_left (scan_step (minimumRR samplingrate))
                   (combine indices amplitudes)
                   (mk_scan [] peak_candidate_index peak_candidate_amplitude))).

(** *** checkPeaks *)

(** The quotient of two numpy doubles: a zero divisor gives an infinity
    or a NaN, not an exception. *)
Inductive ratio : Type :=
| Finite (q : Q)
| PlusInf
| MinusInf
| NaN.

Definition np_div (a t : Q) : ratio :=
  if Qeq_bool t 0 then
    if Qlt_bool 0 a then PlusInf
    else if Qlt_bool a 0 then MinusInf
    else NaN
  else Finite (a / t)%Q.

(** [r > q] and [r < q]; every comparison with a NaN is false. *)
Definition ratio_gt (r : ratio) (q : Q) : bool :=
  match r with
  | Finite x => Qlt_bool q x
  | PlusInf => true
  | MinusInf | NaN => false
  end.

Definition ratio_lt (r : ratio) (q : Q) : bool :=
  match r with
  | Finite x => Qlt_bool x q
  | MinusInf => true
  | PlusInf | NaN => false
  end.

(** [l[-1]] of a list that is never empty here ([QRSpeaks] starts as
    [[0]]). *)
Definition last_of (l : list Z) : Z := last l 0.

Definition acceptasQRS (st : buffers) (peak : Z) (amplitude : Q) : buffers :=
  let qrs := QRSpeaks st ++ [peak] in
  let signal := tl (signal_peak_buffer st) ++ [amplitude] in
  let rr :=
    if (1 <? List.length qrs)%nat
    then tl (rr_buffer st) ++ [last_of qrs - last_of (removelast qrs)]
    else rr_buffer st in
  mk_buffers signal (noise_peak_buffer st) rr (threshold st) qrs.

Definition acceptasNoise (st : buffers) (peak : Z) (amplitude : Q) : buffers :=
  mk_buffers (signal_peak_buffer st)
             (tl (noise_peak_buffer st) ++ [amplitude])
             (rr_buffer st) (threshold st) (QRSpeaks st).

(** The body of the loop of [checkPeaks] for [peak = peaks[index]], with
    [next_peak = peaks[index+1]]. *)
Definition check_one (samplingrate : Z) (ecg : list Q) (st : buffers)
           (peak next_peak : Z) : result buffers :=
  amplitude <- getitem ecg peak ;;
  let amp_ratio := np_div amplitude (threshold st) in
  if ratio_gt amp_ratio 1 then Ok (acceptasQRS st peak amplitude)
  else if ratio_lt amp_ratio 0.5 then Ok (acceptasNoise st peak amplitude)
  else if samplingrate =? 0 then Raise ZeroDivisionError
  else
    let meanrr := mean (map inject_Z (rr_buffer st)) in
    let lastQRS_to_this_peak :=
      (inject_Z (peak - last_of (QRSpeaks st)) / inject_Z samplingrate)%Q in
    let lastQRS_to_next_peak := next_peak - last_of (QRSpeaks st) in
    if Qlt_bool 0.36 lastQRS_to_this_peak &&
       Qlt_bool (1.5 * meanrr) (inject_Z lastQRS_to_next_peak)
    then Ok (acceptasQRS st peak amplitude)
    else Ok (acceptasNoise st peak amplitude).

(** [for index in range(len(peaks)-1)] over the augmented list. *)
Fixpoint check_loop (samplingrate : Z) (ecg : list Q) (peaks : list Z)
         (st : buffers) : result buffers :=
  match peaks with
  | peak :: ((next_peak :: _) as rest) =>
      st' <- check_one samplingrate ecg st peak next_peak ;;
      check_loop samplingrate ecg rest st'
  | _ => Ok st
  end.

(** [checkPeaks]: the heartbeat list starts as [[0]], the peak list is
    augmented with the last point of the trace, and the leading zero is
    dropped at the end. *)
Definition checkPeaks (samplingrate : Z) (st : buffers) (peaks : list Z)
           (ecg : list Q) : result buffers :=
  let st0 := mk_buffers (signal_peak_buffer st) (noise_peak_buffer st)
                        (rr_buffer st) (threshold st) [0] in
  let peaks := peaks ++ [Z.of_nat (List.length ecg) - 1] in
  st' <- check_loop samplingrate ecg peaks st0 ;;
  Ok (mk_buffers (signal_peak_buffer st') (noise_peak_buffer st')
                 (rr_buffer st') (threshold st') (tl (QRSpeaks st'))).

(** *** Moving-window integration *)

Definition window_length (samplingrate : Z) : Z :=
  py_int (80 * (inject_Z samplingrate / 1000))%Q.

(** [_mw_integrate], for a non-negative window length.  numpy raises
    when the two sides of a slice assignment cannot be broadcast
    together: a window of zero samples on a non-empty trace, or a trace
    shorter than the window. *)
Definition _mw_integrate (samplingrate : Z) (ecg : list Q)
  : result (list Q) :=
  let w := window_length samplingrate in
  let n := Z.of_nat (List.length ecg) in
  let cs := cumsum ecg in
  if ((w =? 0) && (0 <? n)) || ((n <? w) && negb ((n =? 0) && (w =? 1)))
  then Raise (ValueError "operands could not be broadcast together")
  else
    let head := map2 (fun c k => (c / inject_Z k)%Q)
                     (slice cs 0 w) (range 1 (w + 1)) in
    let tail := map2 (fun c c' => ((c - c') / inject_Z w)%Q)
                     (skipn (Z.to_nat w) cs) (slice cs 0 (- w)) in
    Ok (head ++ tail).

(** *** qrs_detect *)

(** [self.QRSpeaks -= 40 * (self.samplingrate / 1000)] on an integer
    array: the difference is cast back to an integer. *)
Definition compensate (samplingrate : Z) (peak : Z) : Z :=
  py_int (inject_Z peak - 40 * (inject_Z samplingrate / 1000))%Q.

(** [self.data[:, qrslead]] *)
Definition column (d : QRSDetector) (qrslead : Z) : result (list Q) :=
  collect (map (fun row => getitem row qrslead) (data d)).

(** The steps of [qrs_detect] that follow the band-pass filter. *)
Definition detect_filtered (samplingrate : Z) (filtered_ecg : list Q)
  : result (list Z) :=
  let diff_ecg := diff filtered_ecg in
  let abs_ecg := map Qabs diff_ecg in
  int_ecg <- _mw_integrate samplingrate abs_ecg ;;
  st <- _initializeBuffers samplingrate int_ecg [] ;;
  peaks <- peakDetect samplingrate int_ecg ;;
  st' <- checkPeaks samplingrate st peaks int_ecg ;;
  Ok (map (compensate samplingrate) (QRSpeaks st')).

Section Detection.

(** [_bpfilter] designs a Butterworth band-pass with [scipy.signal.butter]
    and applies [ecgtools.basic_tools.filtfilt], neither of which is in
    this module: the band-pass stage is a parameter, given the sampling
    rate and the lead. *)
Variable _bpfilter : Z -> list Q -> result (list Q).

Definition qrs_detect (d : QRSDetector) (qrslead : Z) : result (list Z) :=
  raw_ecg <- column d qrslead ;;
  filtered_ecg <- _bpfilter (samplingrate d) raw_ecg ;;
  detect_filtered (samplingrate d) filtered_ecg.

End Detection.

(** ** Reconciliation of several leads *)

(** The peak matrix, [peak_times x leads], by rows; an integer array. *)
Definition matrix : Type := list (list Z).

Definition row (m : matrix) (r : nat) : list Z := nth r m [].

Definition cell (m : matrix) (r j : nat) : Z := nth j (row m r) 0.

Fixpoint set_nth {A : Type} (l : list A) (j : nat) (v : A) : list A :=
  match l, j with
  | [], _ => []
  | _ :: t, O => v :: t
  | x :: t, S j' => x :: set_nth t j' v
  end.

(** [m[lo:hi, j]] for [lo <= hi <= len(m)]. *)
Definition col_slice (m : matrix) (j lo hi : nat) : list Z :=
  map (fun r => nth j r 0) (firstn (hi - lo) (skipn lo m)).

(** [m[lo:lo+len(vals), j] = vals], the values being read before any
    cell is written. *)
Fixpoint col_assign (m : matrix) (j lo : nat) (vals : list Z) : matrix :=
  match m, lo with
  | [], _ => []
  | r :: m', S lo' => r :: col_assign m' j lo' vals
  | r :: m', O =>
      match vals with
      | [] => m
      | v :: vals' => set_nth r j v :: col_assign m' j O vals'
      end
  end.

(** [m[r, j] = v] *)
Definition set_cell (m : matrix) (r j : nat) (v : Z) : matrix :=
  set_nth m r (set_nth (row m r) j v).

Definition count (f : Z -> bool) (l : list Z) : nat :=
  List.length (filter f l).

(** [max()]/[min()] and [argmax()]/[argmin()] of a non-empty row; the
    first of several equal extremes is the one reported. *)
Definition row_max (l : list Z) : Z := fold_left Z.max (tl l) (hd 0 l).

Definition row_min (l : list Z) : Z := fold_left Z.min (tl l) (hd 0 l).

Fixpoint index_of (v : Z) (l : list Z) : nat :=
  match l with
  | [] => O
  | x :: t => if x =? v then O else S (index_of v t)
  end.

Definition argmax (l : list Z) : nat := index_of (row_max l) l.

Definition argmin (l : list Z) : nat := index_of (row_min l) l.

Fixpoint insert_sorted (v : Z) (l : list Z) : list Z :=
  match l with
  | [] => [v]
  | x :: t => if v <=? x then v :: l else x :: insert_sorted v t
  end.

Definition sort (l : list Z) : list Z := fold_right insert_sorted [] l.

(** [scipy.median]: the middle value, or the mean of the two middle
    values. *)
Definition median (l : list Z) : Q :=
  let s := sort l in
  let n := List.length s in
  let lower := nth (n / 2 - 1)%nat s 0 in
  let upper := nth (n / 2)%nat s 0 in
  if Nat.even n
  then ((inject_Z lower + inject_Z upper) / 2)%Q
  else inject_Z upper.

Definition ms90 (samplingrate : Z) : Q :=
  (90 * inject_Z samplingrate / 1000)%Q.

Record reconciler : Type := mk_reconciler
  { peaks : matrix;
    current_peak : nat;
    consensus : list Z }.

Definition near_inner (samplingrate : Z) (all_values : list Z) : nat :=
  count (fun v => Qlt_bool (inject_Z v)
                    (inject_Z (row_min all_values) + ms90 samplingrate))
        all_values.

Definition near_outer (samplingrate : Z) (all_values : list Z) : nat :=
  count (fun v => Qlt_bool (inject_Z (row_max all_values) - ms90 samplingrate)
                    (inject_Z v))
        all_values.

(** The branch "max is wrong": two assignments into the column of the
    outer lead. *)
Definition push_down (m : matrix) (current_peak outerlead : nat) : matrix :=
  let Npeaks := List.length m in
  let m1 := col_assign m outerlead (current_peak + 1)
                       (col_slice m outerlead current_peak (Npeaks - 1)) in
  set_cell m1 current_peak outerlead (py_int (median (row m1 current_peak))).

(** The branch "min is wrong": two assignments into the column of the
    inner lead. *)
Definition pull_up (m : matrix) (current_peak innerlead : nat) : matrix :=
  let Npeaks := List.length m in
  let m1 := col_assign m innerlead current_peak
                       (col_slice m innerlead (current_peak + 1) Npeaks) in
  set_cell m1 (Npeaks - 1) innerlead 0.

(** One turn of the [while] loop of [multilead_peak_match];
    [Nleads] is the second dimension of the array. *)
Definition match_step (samplingrate : Z) (Nleads : nat) (s : reconciler)
  : result reconciler :=
  let all_values := row (peaks s) (current_peak s) in
  match all_values with
  | [] => Raise (ValueError "zero-size array to reduction operation")
  | _ :: _ =>
      let outerlead := argmax all_values in
      let innerlead := argmin all_values in
      let near_inner := near_inner samplingrate all_values in
      let near_outer := near_outer samplingrate all_values in
      if (near_inner =? near_outer)%nat && (near_outer =? Nleads)%nat
      then Ok (mk_reconciler (peaks s) (current_peak s + 1)
                 (consensus s ++ [py_int (median all_values)]))
      else if (near_outer <? near_inner)%nat
      then Ok (mk_reconciler (push_down (peaks s) (current_peak s) outerlead)
                 (current_peak s) (consensus s))
      else Ok (mk_reconciler (pull_up (peaks s) (current_peak s) innerlead)
                 (current_peak s) (consensus s))
  end.

(** The [while] loop, with a bound on the number of turns: [None] when
    the bound is reached before the loop ends. *)
Fixpoint match_loop (fuel : nat) (samplingrate : Z) (Nleads : nat)
         (s : reconciler) : option (result (list Z)) :=
  match fuel with
  | O => None
  | S fuel' =>
      if (current_peak s <? List.length (peaks s))%nat
      then match match_step samplingrate Nleads s with
           | Ok s' => match_loop fuel' samplingrate Nleads s'
           | Raise e => Some (Raise e)
           end
      else Some (Ok (consensus s))
  end.

Definition multilead_peak_match (fuel : nat) (samplingrate : Z)
           (peaks : matrix) : option (result (list Z)) :=
  let Nleads := List.length (hd [] peaks) in
  match_loop fuel samplingrate Nleads (mk_reconciler peaks 0 []).

(** [_zeropad] *)
Definition _zeropad (shortvec : list Z) (l : nat) : list Z :=
  shortvec ++ repeat 0 (l - List.length shortvec).

(** [scipy.array(qrspeaks).transpose()] of leads of one length [n]. *)
Definition transpose (n : nat) (cols : list (list Z)) : matrix :=
  map (fun r => map (fun c => nth r c 0) cols) (seq 0 n).

(** The second half of [qrs_detect_multiple_leads]: pad the per-lead
    detections to one length, stack them and reconcile. *)
Definition reconcile_leads (fuel : nat) (samplingrate : Z)
           (qrspeaks : list (list Z)) : option (result (list Z)) :=
  match qrspeaks with
  | [] => Some (Raise (ValueError "max() arg is an empty sequence"))
  | _ :: _ =>
      let maxlength :=
        fold_right Nat.max O (map (@List.length Z) qrspeaks) in
      let padded := map (fun q => _zeropad q maxlength) qrspeaks in
      multilead_peak_match fuel samplingrate (transpose maxlength padded)
  end.

Section MultipleLeads.

Variable _bpfilter : Z -> list Q -> result (list Q).

(** [qrs_detect_multiple_leads]; an empty [leads] stands for all
    leads. *)
Definition qrs_detect_multiple_leads (fuel : nat) (d : QRSDetector)
           (lead_list : list Z) : option (result (list Z)) :=
  let lead_list :=
    match lead_list with
    | [] => range 0 (leads d)
    | _ => lead_list
    end in
  match collect (map (qrs_detect _bpfilter d) lead_list) with
  | Raise e => Some (Raise e)
  | Ok qrspeaks => reconcile_leads fuel (samplingrate d) qrspeaks
  end.

End MultipleLeads.

(** ** Vocabulary of the properties *)

(** The round trip of a duration: [ms] to samples and back. *)
Definition roundtrip (ms sr : Z) : result Z :=
  _samples_to_ms (_ms_to_samples ms sr) sr.

(** "Within one sample's worth of time": [|back - ms| <= 1000 / sr]. *)
Definition within_one_sample (sr ms back : Z) : Prop :=
  (Qabs (inject_Z back - inject_Z ms) <= 1000 / inject_Z sr)%Q.

(** "More than the refractory distance apart", in integers:
    [b - a > 0.2 * sr]. *)
Definition gap (sr a b : Z) : Prop := sr < 5 * (b - a).

(** "Increasing, and not closer than the refractory distance". *)
Definition refractory_apart (sr a b : Z) : Prop :=
  a < b /\ (minimumRR sr <= inject_Z (b - a))%Q.

(** A heartbeat sequence whose consecutive indices are
    [refractory_apart]. *)
Definition refractory_spaced (sr : Z) (l : list Z) : Prop :=
  Sorted (refractory_apart sr) l.

(** [l] is [r] with some elements left out. *)
Inductive subseq {A : Type} : list A -> list A -> Prop :=
| subseq_nil : subseq [] []
| subseq_skip (x : A) (l r : list A) : subseq l r -> subseq l (x :: r)
| subseq_take (x : A) (l r : list A) : subseq l r -> subseq (x :: l) (x :: r).

(** ** Test traces *)

(** A flat trace of 9 s at 1000 Hz, and one at 50 Hz. *)
Definition flat_9s : list Q := repeat 0%Q (Z.to_nat 9000).

Definition flat_9s_50Hz : list Q := repeat 0%Q 450.

(** An integrated trace at 1000 Hz whose strict local maxima are two
    peaks 150 ms apart, at samples 100 and 250, the later the larger. *)
Definition two_peaks_150ms : list Q :=
  (repeat 0 100 ++ [1] ++ repeat 0 149 ++ [2] ++ repeat 0 100)%Q.

(** The same two peaks followed by a third one, 900 ms later. *)
Definition three_peaks : list Q :=
  (repeat 0 100 ++ [1] ++ repeat 0 149 ++ [2] ++ repeat 0 899 ++ [3] ++
   repeat 0 100)%Q.

(** A band-passed trace of 406 samples at 50 Hz: a jump between the
    second and the third sample, then two sharp slopes around samples
    100 and 200. *)
Definition early_beat_filtered : list Q :=
  ([0; 0] ++ repeat 8 99 ++ [6; 4; 0; -2; -3] ++ repeat (-3) 95 ++
   [-1; 1; 5; 7; 8] ++ repeat 8 200)%Q.

(** Its integrated trace. *)
Definition early_beat_integrated : list Q :=
  match _mw_integrate 50 (map Qabs (diff early_beat_filtered)) with
  | Ok int_ecg => int_ecg
  | Raise _ => []
  end.

(** A band-pass stage that hands the trace on as it is, to run the
    detector on traces given after filtering. *)
Definition pass_through (samplingrate : Z) (ecg : list Q)
  : result (list Q) := Ok ecg.

(** Two traces of 406 samples at 50 Hz with sharp slopes around samples
    100 and 200; the first has a third one around sample 300. *)
Definition three_beat_lead : list Q :=
  (repeat 0 101 ++ [2; 4; 8; 10] ++ repeat 11 96 ++ [9; 7; 3; 1] ++
   repeat 0 96 ++ [2; 4; 8; 10] ++ repeat 11 101)%Q.

Definition two_beat_lead : list Q :=
  (repeat 0 101 ++ [2; 4; 8; 10] ++ repeat 11 96 ++ [9; 7; 3; 1] ++
   repeat 0 201)%Q.

(** A recording of three leads: the first trace and twice the second. *)
Definition three_lead_rows : list (list Q) :=
  map2 (fun a b => [a; b; b]) three_beat_lead two_beat_lead.

Definition three_lead_recording : ecgdata := Array2 three_lead_rows.

(** The detector that [QRSDetector_init] builds from it at 50 Hz. *)
Definition three_lead_detector : QRSDetector :=
  mk_detector three_lead_rows 50 406 3.

(** The detector that [QRSDetector_init] builds from
    [early_beat_filtered] taken as a single lead at 50 Hz. *)
Definition early_beat_detector : QRSDetector :=
  mk_detector (map (fun v => [v]) early_beat_filtered) 50 406 1.

(** Detections of three leads at 1000 Hz: the first lead has one beat
    more than the other two. *)
Definition extra_beat_leads : list (list Z) := [[100; 400]; [100]; [100]].

(** A peak matrix of three leads at 1000 Hz in which the third lead
    reports its first beat 400 ms after the other two. *)
Definition late_third_lead : matrix :=
  [[100; 100; 500]; [1100; 1100; 1100]; [2100; 2100; 2100]].

(** What the specification says of the branch "max is wrong": the value
    of the current row is removed from the column of the lead and the
    following rows are pulled up. *)
Definition removed_and_pulled_up (old new : matrix) (current_peak lead : nat)
  : Prop :=
  forall r, (current_peak <= r)%nat -> (S r < List.length old)%nat ->
            cell new r lead = cell old (S r) lead.

(** What the branch does: the column of the lead moves one row down
    from the current row on, its last value is lost, and [v] is written
    in the current row. *)
Definition pushed_down (old new : matrix) (current_peak lead : nat) (v : Z)
  : Prop :=
  List.length new = List.length old /\
  (forall r k, k <> lead -> cell new r k = cell old r k) /\
  (forall r, (r < current_peak)%nat -> cell new r lead = cell old r lead) /\
  cell new current_peak lead = v /\
  (forall r, (current_peak < r < List.length old)%nat ->
             cell new r lead = cell old (r - 1) lead).

(** A rectangular array with [Nleads] columns. *)
Definition rectangular (Nleads : nat) (m : matrix) : Prop :=
  Forall (fun r => List.length r = Nleads) m.

(** The claim about the errors of [filtfilt], for given scipy
    routines: it raises exactly when the input is not a vector or is
    shorter than three times the number of coefficients. *)
Definition filtfilt_raises_exactly_on_bad_input
           (linalg_inv : list (list Q) -> option (list (list Q)))
           (lfilter : list Q -> list Q -> list Q -> list Q ->
                      option (list Q * list Q)) : Prop :=
  forall b a x,
    raises (filtfilt linalg_inv lfilter b a x) <->
    (ndim x <> 1 \/ size x < 3 * ntaps b a).

(** ** Reference routines in exact arithmetic

    Stand-ins for [scipy.signal.lfilter] (direct form II transposed) and
    [scipy.linalg.inv] (Gauss-Jordan elimination), to run [filtfilt]. *)

Definition lfilter_sample (b a : list Q) (st : list Q * list Q) (x : Q)
  : list Q * list Q :=
  let '(z, ys) := st in
  let y := (hd 0 b * x + hd 0 z)%Q in
  let z' := map2 (fun (c : Q * Q) zn => (fst c * x + zn - snd c * y)%Q)
                 (combine (tl b) (tl a)) (tl z ++ [0%Q]) in
  (z', ys ++ [y]).

Definition lfilter_ref (b a x zi : list Q) : option (list Q * list Q) :=
  match a with
  | [] => None
  | a0 :: _ =>
      if Qeq_bool a0 0 then None
      else
        let b' := map (fun c => (c / a0)%Q) b in
        let a' := map (fun c => (c / a0)%Q) a in
        let '(zf, y) := fold_left (lfilter_sample b' a') x (zi, []) in
        Some (map Qred y, map Qred zf)
  end.

Fixpoint find_pivot (k : nat) (rows : list (list Q)) (i : nat) : option nat :=
  match rows with
  | [] => None
  | r :: rest =>
      if (k <=? i)%nat && negb (Qeq_bool (nth k r 0%Q) 0)
      then Some i
      else find_pivot k rest (S i)
  end.

Definition eliminate (k : nat) (m : list (list Q)) : option (list (list Q)) :=
  match find_pivot k m 0 with
  | None => None
  | Some p =>
      let m1 := set_nth (set_nth m k (nth p m [])) p (nth k m []) in
      let pivot_row := nth k m1 [] in
      let unit := map (fun v => Qred (v / nth k pivot_row 0)%Q) pivot_row in
      Some (map (fun ir : nat * list Q =>
                   if (fst ir =? k)%nat then unit
                   else map2 (fun v u => Qred (v - nth k (snd ir) 0 * u)%Q)
                             (snd ir) unit)
                (combine (seq 0 (List.length m1)) m1))
  end.

Definition inv_ref (m : list (list Q)) : option (list (list Q)) :=
  let n := List.length m in
  let augmented :=
    map (fun ir : nat * list Q =>
           snd ir ++ map (fun j => if (fst ir =? j)%nat then 1%Q else 0%Q)
                         (seq 0 n))
        (combine (seq 0 n) m) in
  match fold_left (fun acc k => match acc with
                                | Some x => eliminate k x
                                | None => None
                                end)
                  (seq 0 n) (Some augmented) with
  | Some r => Some (map (skipn n) r)
  | None => None
  end.

(** A band-passed trace of 1031 samples at 128 Hz with slopes at
    samples 5, 22, 31, 91 and 100. *)
Definition trace_128Hz : list Q :=
  (repeat 0 6 ++ repeat 6 17 ++ repeat 7 9 ++ repeat 9 60 ++ repeat 8 9 ++
   repeat 6 930)%Q.

(** ** Proof automation *)

(** Equality of two boolean tests on natural numbers, by [lia]. *)
Ltac bool_eq :=
  apply eq_true_iff_eq;
  rewrite ?andb_true_iff, ?Nat.leb_le, ?Nat.ltb_lt, ?Nat.eqb_eq;
  cbn [List.length]; lia.

(** A boolean test in a hypothesis, as a proposition. *)
Ltac split_cond E :=
  rewrite ?andb_true_iff, ?andb_false_iff, ?Nat.leb_le, ?Nat.ltb_lt,
    ?Nat.eqb_eq, ?Nat.leb_gt, ?Nat.ltb_ge, ?Nat.eqb_neq in E.

(** Case analysis on every test of the goal, innermost first, the
    tests on integers being turned into propositions. *)
Ltac if_cases :=
  repeat match goal with
         | |- context [if ?c then _ else _] =>
             lazymatch c with
             | context [if _ then _ else _] => fail
             | _ => destruct c eqn:?
             end
         end;
  rewrite ?Z.ltb_lt, ?Z.ltb_ge, ?Z.leb_le, ?Z.leb_gt, ?Z.eqb_eq,
    ?Z.eqb_neq in *.



(** ** Vocabulary of the further properties *)

(** Buffers that hold [n + 1] values each. *)
Definition holds (n : nat) (st : buffers) : Prop :=
  List.length (signal_peak_buffer st) = S n /\
  List.length (noise_peak_buffer st) = S n /\
  List.length (rr_buffer st) = S n.

(** The distances between consecutive beats, the first one measured
    from [prev]. *)
Fixpoint intervals (prev : Z) (beats : list Z) : list Z :=
  match beats with
  | [] => []
  | b :: rest => (b - prev) :: intervals b rest
  end.

(** The last [n] elements of a list. *)
Definition last_n {A : Type} (n : nat) (l : list A) : list A :=
  skipn (List.length l - n) l.

(** A row whose values all lie within 90 ms of its least and of its
    greatest value. *)
Definition agrees (samplingrate : Z) (Nleads : nat) (all_values : list Z)
  : Prop :=
  near_inner samplingrate all_values = Nleads /\
  near_outer samplingrate all_values = Nleads.

(** The consensus beat of a row that agrees. *)
Definition consensus_beat (all_values : list Z) : Z :=
  py_int (median all_values).

(** What the branch "min is wrong" does: the column of the lead moves
    one row up from the current row on, the value of the current row is
    lost, and 0 is written in the last row. *)
Definition pulled_up (old new : matrix) (current_peak lead : nat) : Prop :=
  List.length new = List.length old /\
  (forall r k, k <> lead -> cell new r k = cell old r k) /\
  (forall r, (r < current_peak)%nat -> cell new r lead = cell old r lead) /\
  (forall r, (current_peak <= r)%nat -> (S r < List.length old)%nat ->
             cell new r lead = cell old (S r) lead) /\
  cell new (List.length old - 1) lead = 0.

(** The length of the longest lead, as [qrs_detect_multiple_leads]
    computes it. *)
Definition maxlength (qrspeaks : list (list Z)) : nat :=
  fold_right Nat.max O (map (@List.length Z) qrspeaks).

(** The samples of the window of [w] samples that ends at sample [i],
    cut at the start of the trace. *)
Definition window_ending_at (w : nat) (ecg : list Q) (i : nat) : list Q :=
  firstn (S i - (S i - w)) (skipn (S i - w) ecg).
Example format_doctest : _format_time_wfdb 7322002 = Ok "02:02:02.002"%string.
Proof. reflexivity. Qed.

Example ms_doctest : _ms_to_samples 500 1000 = 500 /\ _ms_to_samples 100 500 = 50.
Proof. split; reflexivity. Qed.

Example samples_doctest :
  _samples_to_ms 500 1000 = Ok 500 /\ _samples_to_ms 50 500 = Ok 100.
Proof. split; reflexivity. Qed.

(** ** Results *)

Lemma Ok_inj {A : Type} (a b : A) : Ok a = Ok b -> a = b.
Proof. intros H. injection H as H. exact H. Qed.

Lemma bind_Ok {A B : Type} (r : result A) (k : A -> result B) (b : B) :
  bind r k = Ok b -> exists a, r = Ok a /\ k a = Ok b.
Proof.
  destruct r as [a | e]; simpl; intros H; [| discriminate].
  exists a. split; [reflexivity | exact H].
Qed.

(** ** Unit conversions *)

Lemma py_int_comp (x y : Q) : (x == y)%Q -> py_int x = py_int y.
Proof.
  intros H. unfold py_int.
  rewrite (Qleb_comp 0%Q 0%Q (Qeq_refl 0) x y H).
  destruct (Qle_bool 0 y); [apply Qfloor_comp | apply Qceiling_comp]; exact H.
Qed.

Lemma py_int_Z (z : Z) : py_int (inject_Z z) = z.
Proof.
  unfold py_int. destruct (Qle_bool 0 (inject_Z z));
    [apply Qfloor_Z | apply Qceiling_Z].
Qed.

(** On a non-negative quotient of integers [int(a / b)] is [a // b]. *)
Lemma py_int_div (a b : Z) :
  0 <= a -> 0 < b -> py_int (inject_Z a / inject_Z b) = a / b.
Proof.
  intros Ha Hb. unfold py_int.
  assert (Hq : (0 <= inject_Z a / inject_Z b)%Q).
  { apply Qle_shift_div_l.
    - replace 0%Q with (inject_Z 0) by reflexivity. rewrite <- Zlt_Qlt. exact Hb.
    - rewrite Qmult_0_l. replace 0%Q with (inject_Z 0) by reflexivity.
      rewrite <- Zle_Qle. exact Ha. }
  apply Qle_bool_iff in Hq. rewrite Hq. symmetry. apply Zdiv_Qdiv.
Qed.

Lemma _ms_to_samples_floor (ms sr : Z) :
  0 <= ms -> 0 < sr -> _ms_to_samples ms sr = sr * ms / 1000.
Proof.
  intros Hms Hsr. unfold _ms_to_samples.
  rewrite <- inject_Z_mult. apply (py_int_div (sr * ms) 1000); lia.
Qed.

Lemma _samples_to_ms_floor (n sr : Z) :
  0 <= n -> 0 < sr -> _samples_to_ms n sr = Ok (n * 1000 / sr).
Proof.
  intros Hn Hsr. unfold _samples_to_ms.
  destruct (Z.eqb_spec sr 0) as [E | _]; [lia |].
  f_equal. change 1000%Q with (inject_Z 1000).
  rewrite <- inject_Z_mult. apply py_int_div; lia.
Qed.

(** C8, as stated, fails: at 360 Hz, 5 ms is one sample and one sample is
    2 ms, 3 ms off while a sample lasts 2.78 ms. *)
Lemma roundtrip_360_off_by_more_than_a_sample :
  ~ (forall ms sr, 0 <= ms -> 0 < sr ->
       exists back, roundtrip ms sr = Ok back /\ within_one_sample sr ms back).
Proof.
  intros H. destruct (H 5 360) as [back [E B]]; [lia | lia |].
  vm_compute in E. injection E as <-. vm_compute in B. apply B. reflexivity.
Qed.

(** C8, amended: the round trip never exceeds the duration and falls
    short of it by less than one sample's worth of time plus one
    millisecond. *)
Theorem roundtrip_within_sample_plus_ms (ms sr : Z) :
  0 <= ms -> 0 < sr ->
  exists back, roundtrip ms sr = Ok back /\
    0 <= back <= ms /\
    (inject_Z ms - inject_Z back < 1000 / inject_Z sr + 1)%Q.
Proof.
  intros Hms Hsr. unfold roundtrip.
  rewrite (_ms_to_samples_floor ms sr Hms Hsr).
  assert (Hs : 0 <= sr * ms / 1000) by (apply Z.div_pos; nia).
  rewrite (_samples_to_ms_floor _ sr Hs Hsr).
  set (s := sr * ms / 1000) in *. set (b := s * 1000 / sr).
  exists b. split; [reflexivity |].
  assert (H1 : 1000 * s <= sr * ms < 1000 * s + 1000).
  { unfold s. pose proof (Z.mul_div_le (sr * ms) 1000).
    pose proof (Z.mul_succ_div_gt (sr * ms) 1000). lia. }
  assert (H2 : sr * b <= s * 1000 < sr * b + sr).
  { unfold b. pose proof (Z.mul_div_le (s * 1000) sr).
    pose proof (Z.mul_succ_div_gt (s * 1000) sr). lia. }
  assert (Hb : 0 <= b) by (apply Z.div_pos; lia).
  split; [nia |].
  assert (Hz : (ms - b) * sr < 1000 + sr) by nia.
  apply Qlt_minus_iff.
  setoid_replace (1000 / inject_Z sr + 1 + - (inject_Z ms - inject_Z b))%Q
    with (inject_Z (1000 + sr - (ms - b) * sr) / inject_Z sr)%Q.
  - apply Qlt_shift_div_l.
    + replace 0%Q with (inject_Z 0) by reflexivity. rewrite <- Zlt_Qlt. lia.
    + rewrite Qmult_0_l. replace 0%Q with (inject_Z 0) by reflexivity.
      rewrite <- Zlt_Qlt. lia.
  - unfold Zminus. rewrite !inject_Z_plus, inject_Z_opp, inject_Z_mult.
    rewrite inject_Z_plus, inject_Z_opp.
    change (inject_Z 1000) with 1000%Q. field.
    intros E. unfold Qeq in E. simpl in E. lia.
Qed.

Lemma roundtrip_within_sample_plus_ms_360 :
  exists back, roundtrip 5 360 = Ok back /\
    0 <= back <= 5 /\
    (inject_Z 5 - inject_Z back < 1000 / inject_Z 360 + 1)%Q.
Proof. apply (roundtrip_within_sample_plus_ms 5 360); lia. Defined.

(** ** Time stamps *)







(** C7: the stamp is not always [HH:MM:SS.mmm].  The docstrings promise
    the form (hh):mm:ss.sss; on a time that is a whole number of seconds
    the functions return [HH:MM]. *)
Theorem wfdb_time_loses_seconds_field :
  _format_time_wfdb 7322000 = Ok "02:02"%string /\
  _sample_to_time 1000 0 = Ok "00:00"%string /\
  _sample_to_time 360 360 = Ok "00:00"%string /\
  wfdb_shape "02:02" = false.
Proof. repeat split; reflexivity. Qed.

(** ** The refractory distance, in integers *)

Lemma minimumRR_lt (sr d : Z) :
  (minimumRR sr < inject_Z d)%Q <-> sr < 5 * d.
Proof. unfold minimumRR, Qlt, Qmult, inject_Z. cbn [Qnum Qden]. lia. Qed.

Lemma minimumRR_ge (sr d : Z) :
  (inject_Z d <= minimumRR sr)%Q <-> 5 * d <= sr.
Proof. unfold minimumRR, Qle, Qmult, inject_Z. cbn [Qnum Qden]. lia. Qed.

Lemma Qlt_bool_iff (x y : Q) : Qlt_bool x y = true <-> (x < y)%Q.
Proof.
  unfold Qlt_bool. rewrite negb_true_iff. split; intros H.
  - apply Qnot_le_lt. intros C. apply Qle_bool_iff in C. congruence.
  - destruct (Qle_bool y x) eqn:E; [| reflexivity].
    apply Qle_bool_iff in E. exfalso. exact (Qlt_not_le _ _ H E).
Qed.

Lemma Qlt_bool_irrefl (x : Q) : Qlt_bool x x = false.
Proof.
  destruct (Qlt_bool x x) eqn:E; [| reflexivity].
  apply Qlt_bool_iff in E. exfalso. exact (Qlt_irrefl _ E).
Qed.

Lemma far_iff (sr d : Z) :
  Qlt_bool (minimumRR sr) (inject_Z d) = true <-> sr < 5 * d.
Proof. rewrite Qlt_bool_iff. apply minimumRR_lt. Qed.

Lemma near_iff (sr d : Z) :
  Qle_bool (inject_Z d) (minimumRR sr) = true <-> 5 * d <= sr.
Proof. rewrite Qle_bool_iff. apply minimumRR_ge. Qed.

(** ** peakDetect *)

(** The three branches of the loop body, the distances in integers. *)
Lemma scan_step_cases (sr : Z) (s : scan) (p : Z) (a : Q) :
  scan_step (minimumRR sr) s (p, a) =
  if (5 * (p - peak_candidate_index s) <=? sr) &&
     Qlt_bool (peak_candidate_amplitude s) a
  then mk_scan (unique_peaks s) p a
  else if sr <? 5 * (p - peak_candidate_index s)
  then mk_scan (unique_peaks s ++ [peak_candidate_index s]) p a
  else s.
Proof.
  unfold scan_step.
  replace (Qle_bool (inject_Z (p - peak_candidate_index s)) (minimumRR sr))
    with (5 * (p - peak_candidate_index s) <=? sr).
  2:{ apply eq_true_iff_eq. rewrite near_iff, Z.leb_le. reflexivity. }
  replace (Qlt_bool (minimumRR sr) (inject_Z (p - peak_candidate_index s)))
    with (sr <? 5 * (p - peak_candidate_index s)).
  2:{ apply eq_true_iff_eq. rewrite far_iff, Z.ltb_lt. reflexivity. }
  reflexivity.
Qed.

Section Scan.

Variable sr : Z.

(** Whatever the scan commits was a candidate, and a later peak more
    than the refractory distance away displaced it. *)
Lemma scan_committed_followed (l : list (Z * Q)) :
  forall (s : scan) (u : Z),
    In u (unique_peaks (fold_left (scan_step (minimumRR sr)) l s)) ->
    In u (unique_peaks s) \/ exists p a, In (p, a) l /\ gap sr u p.
Proof.
  induction l as [| [p a] l IH]; intros s u H; cbn [fold_left] in H.
  - left. exact H.
  - apply IH in H. destruct H as [H | (p' & a' & Hin & Hg)].
    + rewrite scan_step_cases in H.
      destruct (_ && _).
      * left. exact H.
      * destruct (Z.ltb_spec sr (5 * (p - peak_candidate_index s))) as [F | F].
        -- simpl in H. apply in_app_or in H. destruct H as [H | [<- | []]].
           ++ left. exact H.
           ++ right. exists p, a. split; [left; reflexivity | exact F].
        -- left. exact H.
    + right. exists p', a'. split; [right; exact Hin | exact Hg].
Qed.

(** The scan commits nothing while every peak stays within the
    refractory distance of the first. *)
Lemma scan_all_near (p0 : Z) (l : list (Z * Q)) :
  forall s : scan,
    p0 <= peak_candidate_index s ->
    (forall p a, In (p, a) l -> p0 <= p /\ 5 * (p - p0) <= sr) ->
    unique_peaks (fold_left (scan_step (minimumRR sr)) l s) = unique_peaks s.
Proof.
  induction l as [| [p a] l IH]; intros s Hc Hl; cbn [fold_left].
  - reflexivity.
  - destruct (Hl p a (or_introl eq_refl)) as [Hp Hn].
    assert (Hl' : forall p a, In (p, a) l -> p0 <= p /\ 5 * (p - p0) <= sr)
      by (intros q b Hq; apply (Hl q b); right; exact Hq).
    rewrite scan_step_cases.
    destruct (_ && _).
    + rewrite IH; [reflexivity | exact Hp | exact Hl'].
    + destruct (Z.ltb_spec sr (5 * (p - peak_candidate_index s))) as [F | F].
      * lia.
      * apply IH; assumption.
Qed.

Lemma StronglySorted_snoc (R : Z -> Z -> Prop) (l : list Z) (c : Z) :
  StronglySorted R l -> Forall (fun u => R u c) l ->
  StronglySorted R (l ++ [c]).
Proof.
  induction 1 as [| x l Hs IH Hx]; intros Hc; simpl.
  - constructor; constructor.
  - inversion Hc; subst. constructor.
    + apply IH. assumption.
    + apply Forall_app. split; [exact Hx | constructor; [assumption | constructor]].
Qed.

(** Committed peaks are more than the refractory distance apart, and
    the candidate is more than that distance after all of them. *)
Lemma scan_sorted (l : list (Z * Q)) :
  forall s : scan,
    0 <= sr ->
    StronglySorted Z.lt (map fst l) ->
    Forall (fun p => peak_candidate_index s <= p) (map fst l) ->
    StronglySorted (gap sr) (unique_peaks s) ->
    Forall (fun u => gap sr u (peak_candidate_index s)) (unique_peaks s) ->
    StronglySorted (gap sr) (unique_peaks (fold_left (scan_step (minimumRR sr)) l s)).
Proof.
  induction l as [| [p a] l IH]; intros s Hsr Hl Hc Hu Hg; cbn [fold_left].
  - exact Hu.
  - simpl in Hl, Hc. apply StronglySorted_inv in Hl. destruct Hl as [Hl Hp].
    inversion Hc as [| ? ? Hcp Hc']; subst.
    assert (Hl' : Forall (fun q => p <= q) (map fst l)).
    { eapply Forall_impl; [| exact Hp]. simpl. intros; lia. }
    rewrite scan_step_cases.
    destruct (_ && _).
    + apply IH; simpl; try assumption.
      eapply Forall_impl; [| exact Hg]. unfold gap.
           cbn [peak_candidate_index]. intros; lia.
    + destruct (Z.ltb_spec sr (5 * (p - peak_candidate_index s))) as [F | F].
      * apply IH; simpl; try assumption.
        -- apply StronglySorted_snoc; assumption.
        -- apply Forall_app. split.
           ++ eapply Forall_impl; [| exact Hg]. unfold gap.
           cbn [peak_candidate_index]. intros; lia.
           ++ constructor; [exact F | constructor].
      * apply IH; assumption.
Qed.

End Scan.

Lemma range_sorted (lo hi : Z) : StronglySorted Z.lt (range lo hi).
Proof.
  unfold range. generalize (Z.to_nat (hi - lo)) as n. generalize 0%nat as a.
  intros a n. revert a. induction n as [| n IH]; intros a; simpl.
  - constructor.
  - constructor; [apply IH |].
    apply Forall_forall. intros x Hx. apply in_map_iff in Hx.
    destruct Hx as (k & <- & Hk). apply in_seq in Hk. lia.
Qed.

Lemma in_range (lo hi x : Z) : In x (range lo hi) <-> lo <= x < hi.
Proof.
  unfold range. rewrite in_map_iff. split.
  - intros (k & <- & Hk). apply in_seq in Hk. lia.
  - intros H. exists (Z.to_nat (x - lo)). split; [lia |]. apply in_seq. lia.
Qed.

Lemma StronglySorted_filter (f : Z -> bool) (l : list Z) :
  StronglySorted Z.lt l -> StronglySorted Z.lt (filter f l).
Proof.
  induction 1 as [| x l Hs IH Hx]; simpl.
  - constructor.
  - destruct (f x); [| exact IH]. constructor; [exact IH |].
    apply Forall_forall. intros y Hy. apply filter_In in Hy.
    rewrite Forall_forall in Hx. apply Hx. tauto.
Qed.

Lemma peak_indices_sorted (ecg : list Q) :
  StronglySorted Z.lt (peak_indices ecg).
Proof. apply StronglySorted_filter, range_sorted. Qed.

(** A strict local maximum lies strictly inside the trace. *)
Lemma peak_indices_spec (ecg : list Q) (p : Z) :
  In p (peak_indices ecg) <->
  1 <= p < Z.of_nat (List.length ecg) - 1 /\ is_peak ecg p = true.
Proof. unfold peak_indices. rewrite filter_In, in_range. reflexivity. Qed.

Lemma map_fst_combine_map (f : Z -> Q) (l : list Z) :
  map fst (combine l (map f l)) = l.
Proof. induction l as [| x l IH]; simpl; [| rewrite IH]; reflexivity. Qed.

Lemma in_combine_fst (f : Z -> Q) (l : list Z) (p : Z) (a : Q) :
  In (p, a) (combine l (map f l)) -> In p l.
Proof.
  intros H. rewrite <- (map_fst_combine_map f l).
  apply in_map_iff. exists (p, a). split; [reflexivity | exact H].
Qed.

Lemma peakDetect_empty (sr : Z) (ecg : list Q) :
  peak_indices ecg = [] -> peakDetect sr ecg = Raise IndexError.
Proof. intros H. unfold peakDetect. rewrite H. reflexivity. Qed.

Lemma peakDetect_nonempty (sr : Z) (ecg : list Q) (p0 : Z) (rest : list Z) :
  peak_indices ecg = p0 :: rest ->
  peakDetect sr ecg =
  Ok (unique_peaks
        (fold_left (scan_step (minimumRR sr))
                   (combine (p0 :: rest) (map (at_ ecg) (p0 :: rest)))
                   (mk_scan [] p0 (at_ ecg p0)))).
Proof.
  intros H. unfold peakDetect, peak_amplitudes. rewrite H. reflexivity.
Qed.

(** The extractor raises exactly on a trace without a strict local
    maximum. *)
Lemma peakDetect_returns_iff (sr : Z) (ecg : list Q) :
  returns (peakDetect sr ecg) <-> peak_indices ecg <> [].
Proof.
  destruct (peak_indices ecg) as [| p0 rest] eqn:E.
  - rewrite (peakDetect_empty sr ecg E). split.
    + intros [a Ha]. discriminate.
    + intros C. contradiction.
  - rewrite (peakDetect_nonempty sr ecg p0 rest E). split.
    + intros _. discriminate.
    + intros _. eexists. reflexivity.
Qed.

Lemma sorted_le_last (l : list Z) :
  StronglySorted Z.lt l -> forall p, In p l -> p <= last l 0.
Proof.
  induction 1 as [| x l Hs IH Hx]; intros p Hp.
  - destruct Hp.
  - destruct l as [| y l'].
    + destruct Hp as [<- | []]. simpl. lia.
    + change (last (x :: y :: l') 0) with (last (y :: l') 0).
      destruct Hp as [<- | Hp].
      * inversion Hx; subst. specialize (IH y (or_introl eq_refl)). lia.
      * apply IH. exact Hp.
Qed.

Lemma peakDetect_followed (sr : Z) (ecg : list Q) (out : list Z) :
  0 < sr -> peakDetect sr ecg = Ok out ->
  forall u, In u out ->
    exists p, In p (peak_indices ecg) /\ u < p /\ sr < 5 * (p - u).
Proof.
  intros Hsr H u Hu.
  destruct (peak_indices ecg) as [| p0 rest] eqn:E.
  - rewrite (peakDetect_empty sr ecg E) in H. discriminate.
  - rewrite (peakDetect_nonempty sr ecg p0 rest E) in H.
    apply Ok_inj in H. subst out.
    apply (scan_committed_followed sr
             (combine (p0 :: rest) (map (at_ ecg) (p0 :: rest)))
             (mk_scan [] p0 (at_ ecg p0))) in Hu.
    destruct Hu as [[] | (p & a & Hin & Hg)].
    exists p. split; [exact (in_combine_fst _ _ _ _ Hin) |].
    unfold gap in Hg. lia.
Qed.

Lemma peakDetect_all_near (sr : Z) (ecg : list Q) (out : list Z) :
  peakDetect sr ecg = Ok out ->
  (forall p, In p (peak_indices ecg) ->
     5 * (p - hd 0 (peak_indices ecg)) <= sr) ->
  out = [].
Proof.
  intros H Hn.
  pose proof (peak_indices_sorted ecg) as Hs.
  destruct (peak_indices ecg) as [| p0 rest] eqn:E.
  - rewrite (peakDetect_empty sr ecg E) in H. discriminate.
  - rewrite (peakDetect_nonempty sr ecg p0 rest E) in H.
    apply Ok_inj in H. subst out.
    rewrite (scan_all_near sr p0
               (combine (p0 :: rest) (map (at_ ecg) (p0 :: rest)))
               (mk_scan [] p0 (at_ ecg p0))); [reflexivity | simpl; lia |].
    intros p a Hin. apply in_combine_fst in Hin. split.
    + apply StronglySorted_inv in Hs. destruct Hs as [_ Hf].
      rewrite Forall_forall in Hf. destruct Hin as [<- | Hin]; [lia |].
      specialize (Hf p Hin). lia.
    + apply (Hn p Hin).
Qed.

(** Peaks returned by the extractor are more than the refractory
    distance apart. *)
Lemma peakDetect_sorted (sr : Z) (ecg : list Q) (out : list Z) :
  0 <= sr -> peakDetect sr ecg = Ok out -> StronglySorted (gap sr) out.
Proof.
  intros Hsr H.
  pose proof (peak_indices_sorted ecg) as Hs.
  destruct (peak_indices ecg) as [| p0 rest] eqn:E.
  - rewrite (peakDetect_empty sr ecg E) in H. discriminate.
  - rewrite (peakDetect_nonempty sr ecg p0 rest E) in H.
    apply Ok_inj in H. subst out.
    apply (scan_sorted sr (combine (p0 :: rest) (map (at_ ecg) (p0 :: rest)))
             (mk_scan [] p0 (at_ ecg p0))).
    + exact Hsr.
    + rewrite map_fst_combine_map. exact Hs.
    + rewrite map_fst_combine_map. cbn [peak_candidate_index].
      constructor; [lia |].
      apply StronglySorted_inv in Hs. destruct Hs as [_ Hf].
      eapply Forall_impl; [| exact Hf]. simpl. intros; lia.
    + constructor.
    + constructor.
Qed.

(** C9: the extractor never emits the candidate that is pending when
    the scan ends.  Every index it returns is followed by a later strict
    local maximum more than the refractory distance away; when all
    maxima lie within the refractory distance of the first it returns
    the empty list; the last maximum of the trace is never returned. *)
Theorem peakDetect_never_emits_pending (sr : Z) (ecg : list Q) (out : list Z) :
  0 < sr -> peakDetect sr ecg = Ok out ->
  (forall u, In u out ->
     exists p, In p (peak_indices ecg) /\ u < p /\
               (minimumRR sr < inject_Z (p - u))%Q) /\
  ((forall p, In p (peak_indices ecg) ->
      (inject_Z (p - hd 0%Z (peak_indices ecg)) <= minimumRR sr)%Q) ->
   out = []) /\
  ~ In (last (peak_indices ecg) 0) out.
Proof.
  intros Hsr H. split; [| split].
  - intros u Hu.
    destruct (peakDetect_followed sr ecg out Hsr H u Hu) as (p & Hp & Hlt & Hg).
    exists p. split; [exact Hp |]. split; [exact Hlt |].
    apply minimumRR_lt. exact Hg.
  - intros Hn. apply (peakDetect_all_near sr ecg out H).
    intros p Hp. apply minimumRR_ge. apply Hn. exact Hp.
  - intros Hl.
    destruct (peakDetect_followed sr ecg out Hsr H _ Hl) as (p & Hp & Hlt & _).
    pose proof (sorted_le_last _ (peak_indices_sorted ecg) p Hp). lia.
Qed.

Lemma peakDetect_never_emits_pending_three_peaks :
  peak_indices three_peaks = [100; 250; 1150] /\
  peakDetect 1000 three_peaks = Ok [250] /\
  (forall u, In u [250] ->
     exists p, In p (peak_indices three_peaks) /\ u < p /\
               (minimumRR 1000 < inject_Z (p - u))%Q) /\
  ((forall p, In p (peak_indices three_peaks) ->
      (inject_Z (p - hd 0%Z (peak_indices three_peaks)) <= minimumRR 1000)%Q) ->
   [250] = []) /\
  ~ In (last (peak_indices three_peaks) 0) [250].
Proof.
  split; [vm_compute; reflexivity |]. split; [vm_compute; reflexivity |].
  apply (peakDetect_never_emits_pending 1000 three_peaks [250]).
  - lia.
  - vm_compute. reflexivity.
Defined.

(** A trace of equal samples has no strict local maximum. *)
Lemma peak_indices_flat (v : Q) (n : nat) : peak_indices (repeat v n) = [].
Proof.
  unfold peak_indices.
  set (l := range 1 (Z.of_nat (List.length (repeat v n)) - 1)).
  assert (H : forall i, In i l -> is_peak (repeat v n) i = false).
  { intros i Hi. unfold l in Hi. apply in_range in Hi.
    rewrite repeat_length in Hi. unfold is_peak, at_.
    rewrite !(nth_repeat_lt v) by lia.
    rewrite Qlt_bool_irrefl. reflexivity. }
  clearbody l. induction l as [| i l IH]; simpl; [reflexivity |].
  rewrite (H i (or_introl eq_refl)). apply IH.
  intros j Hj. apply H. right. exact Hj.
Qed.

(** C3: on a trace without a strict local maximum the extractor does
    not return the empty list, it raises.  [peak_indices[0]] is read
    before the list is known to be non-empty; the comments of
    [peakDetect] ("start with first peak") assume one. *)
Theorem peakDetect_flat_raises :
  peakDetect 1000 flat_9s = Raise IndexError /\
  detect_filtered 50 flat_9s_50Hz = Raise IndexError /\
  (forall sr v n, peakDetect sr (repeat v n) = Raise IndexError).
Proof.
  split; [| split].
  - apply peakDetect_empty. apply peak_indices_flat.
  - vm_compute. reflexivity.
  - intros sr v n. apply peakDetect_empty. apply peak_indices_flat.
Qed.

(** C4: two maxima 150 ms apart do not collapse into one retained
    candidate: the larger one is still pending when the scan ends and is
    never appended, so nothing is returned. *)
Theorem peakDetect_two_close_peaks_returns_nothing :
  peak_indices two_peaks_150ms = [100; 250] /\
  peak_amplitudes two_peaks_150ms = [1; 2]%Q /\
  peakDetect 1000 two_peaks_150ms = Ok [] /\
  peakDetect 20 [0; 1; 0; 0; 2; 0]%Q = Ok [].
Proof. repeat split; vm_compute; reflexivity. Qed.

(** ** checkPeaks *)

Lemma subseq_refl {A : Type} (l : list A) : subseq l l.
Proof. induction l; constructor; assumption. Qed.

Lemma subseq_nil_l {A : Type} (l : list A) : subseq [] l.
Proof. induction l; constructor; assumption. Qed.

Lemma subseq_In {A : Type} (l r : list A) (x : A) :
  subseq l r -> In x l -> In x r.
Proof.
  induction 1 as [| y l r H IH | y l r H IH]; intros Hx.
  - exact Hx.
  - right. apply IH. exact Hx.
  - destruct Hx as [-> | Hx]; [left; reflexivity | right; apply IH; exact Hx].
Qed.

Lemma subseq_Forall {A : Type} (P : A -> Prop) (l r : list A) :
  subseq l r -> Forall P r -> Forall P l.
Proof.
  intros Hs Hr. apply Forall_forall. intros x Hx.
  rewrite Forall_forall in Hr. apply Hr. exact (subseq_In l r x Hs Hx).
Qed.

Lemma subseq_StronglySorted {A : Type} (R : A -> A -> Prop) (l r : list A) :
  subseq l r -> StronglySorted R r -> StronglySorted R l.
Proof.
  induction 1 as [| y l r H IH | y l r H IH]; intros Hr.
  - constructor.
  - apply IH. apply StronglySorted_inv in Hr. tauto.
  - apply StronglySorted_inv in Hr. destruct Hr as [Hr Hy].
    constructor; [apply IH; exact Hr |]. exact (subseq_Forall _ l r H Hy).
Qed.

(** Neither way of accepting a peak touches the threshold. *)
Lemma acceptasQRS_threshold (st : buffers) (peak : Z) (amplitude : Q) :
  threshold (acceptasQRS st peak amplitude) = threshold st.
Proof. reflexivity. Qed.

Lemma acceptasNoise_threshold (st : buffers) (peak : Z) (amplitude : Q) :
  threshold (acceptasNoise st peak amplitude) = threshold st.
Proof. reflexivity. Qed.

(** A classified peak leaves the threshold as it was and either joins
    the heartbeats or not. *)
Lemma check_one_inv (sr : Z) (ecg : list Q) (st st' : buffers)
      (peak next_peak : Z) :
  check_one sr ecg st peak next_peak = Ok st' ->
  threshold st' = threshold st /\
  (QRSpeaks st' = QRSpeaks st \/ QRSpeaks st' = QRSpeaks st ++ [peak]).
Proof.
  unfold check_one. intros H. apply bind_Ok in H.
  destruct H as (amplitude & _ & H).
  repeat match type of H with
  | (if ?c then _ else _) = _ => destruct c
  end; try discriminate; apply Ok_inj in H; subst st'; simpl; auto.
Qed.

Lemma check_loop_inv (sr : Z) (ecg : list Q) (peaks : list Z) :
  forall st st' : buffers,
    check_loop sr ecg peaks st = Ok st' ->
    threshold st' = threshold st /\
    exists accepted, QRSpeaks st' = QRSpeaks st ++ accepted /\
                     subseq accepted (removelast peaks).
Proof.
  induction peaks as [| peak rest IH]; intros st st' H.
  - apply Ok_inj in H. subst st'. split; [reflexivity |].
    exists []. rewrite app_nil_r. split; [reflexivity | constructor].
  - destruct rest as [| next_peak rest'].
    + apply Ok_inj in H. subst st'. split; [reflexivity |].
      exists []. rewrite app_nil_r. split; [reflexivity | constructor].
    + cbn [check_loop] in H. apply bind_Ok in H.
      destruct H as (st1 & H1 & H).
      apply check_one_inv in H1. destruct H1 as [Ht Hq].
      apply IH in H. destruct H as (Ht' & accepted & Ha & Hs).
      split; [congruence |].
      change (removelast (peak :: next_peak :: rest'))
        with (peak :: removelast (next_peak :: rest')).
      destruct Hq as [Hq | Hq]; rewrite Hq in Ha.
      * exists accepted. split; [exact Ha | constructor; exact Hs].
      * exists (peak :: accepted). rewrite <- app_assoc in Ha.
        split; [exact Ha | constructor; exact Hs].
Qed.

(** The accepted heartbeats are some of the candidate peaks, in their
    order, and the threshold after the run is the threshold before it. *)
Lemma checkPeaks_inv (sr : Z) (st st' : buffers) (peaks : list Z)
      (ecg : list Q) :
  checkPeaks sr st peaks ecg = Ok st' ->
  threshold st' = threshold st /\ subseq (QRSpeaks st') peaks.
Proof.
  unfold checkPeaks. intros H. apply bind_Ok in H.
  destruct H as (st1 & H1 & H). apply Ok_inj in H. subst st'.
  apply check_loop_inv in H1. destruct H1 as (Ht & accepted & Ha & Hs).
  cbn [threshold QRSpeaks] in *. rewrite removelast_last in Hs.
  rewrite Ha. split; [exact Ht | exact Hs].
Qed.

(** ** The threshold during a run *)

Lemma _initializeBuffers_threshold (sr : Z) (ecg : list Q) (q : list Z)
      (st : buffers) :
  _initializeBuffers sr ecg q = Ok st ->
  threshold st = threshold_of (signal_peak_buffer st) (noise_peak_buffer st).
Proof.
  unfold _initializeBuffers. intros H. apply bind_Ok in H.
  destruct H as (signal & _ & H). apply Ok_inj in H. subst st. reflexivity.
Qed.

(** C1: the threshold is computed once, by [_initializeBuffers], and
    stays at that value while the buffers change.  On the trace below
    two peaks are accepted as heartbeats; the threshold the classifier
    holds afterwards is 45/128, the formula on the buffers gives
    115/256.  The docstring of [checkPeaks] promises "thresholds that
    are constantly updated". *)
Theorem threshold_not_recomputed :
  exists st0 st',
    _initializeBuffers 50 early_beat_integrated [] = Ok st0 /\
    peakDetect 50 early_beat_integrated = Ok [1; 103] /\
    checkPeaks 50 st0 [1; 103] early_beat_integrated = Ok st' /\
    QRSpeaks st' = [1; 103] /\
    (threshold st' == 45 # 128)%Q /\
    (threshold_of (signal_peak_buffer st') (noise_peak_buffer st')
     == 115 # 256)%Q /\
    ~ (threshold st'
       == threshold_of (signal_peak_buffer st') (noise_peak_buffer st'))%Q.
Proof.
  destruct (_initializeBuffers 50 early_beat_integrated []) as [st0 | e] eqn:E0;
    [| vm_compute in E0; discriminate].
  destruct (checkPeaks 50 st0 [1; 103] early_beat_integrated) as [st' | e] eqn:E1.
  2:{ vm_compute in E0. apply Ok_inj in E0. subst st0.
      vm_compute in E1. discriminate. }
  exists st0, st'. split; [reflexivity |].
  vm_compute in E0. apply Ok_inj in E0. subst st0.
  vm_compute in E1. apply Ok_inj in E1. subst st'.
  split; [vm_compute; reflexivity |].
  split; [reflexivity |]. split; [reflexivity |].
  split; [vm_compute; reflexivity |]. split; [vm_compute; reflexivity |].
  intros C. vm_compute in C. discriminate.
Qed.

(** ** Delay compensation *)

(** When the sampling rate is a multiple of 25 Hz the offset
    [40 * (samplingrate / 1000)] is a whole number of samples and the
    cast changes nothing. *)
Lemma compensate_exact (sr p : Z) :
  (25 | sr) -> compensate sr p = p - sr / 25.
Proof.
  intros [c ->]. rewrite Z.div_mul by lia. unfold compensate.
  rewrite <- (py_int_Z (p - c)). apply py_int_comp.
  unfold Zminus. rewrite inject_Z_plus, inject_Z_opp, inject_Z_mult.
  change (inject_Z 25) with 25%Q. field.
Qed.

(** The offset is subtracted without a lower bound: a peak earlier than
    the offset by a sample or more gets a negative index. *)
Lemma compensate_negative (sr p : Z) :
  (inject_Z p + 1 <= 40 * (inject_Z sr / 1000))%Q -> compensate sr p < 0.
Proof.
  intros H. unfold compensate, py_int.
  set (q := (inject_Z p - 40 * (inject_Z sr / 1000))%Q).
  assert (Hq : (q <= inject_Z (-1))%Q).
  { unfold q. change (inject_Z (-1)) with (-(1))%Q.
    apply Qplus_le_l with (z := (40 * (inject_Z sr / 1000) + 1)%Q).
    setoid_replace (inject_Z p - 40 * (inject_Z sr / 1000) +
                    (40 * (inject_Z sr / 1000) + 1))%Q
      with (inject_Z p + 1)%Q by ring.
    setoid_replace (- (1) + (40 * (inject_Z sr / 1000) + 1))%Q
      with (40 * (inject_Z sr / 1000))%Q by ring.
    exact H. }
  destruct (Qle_bool 0 q) eqn:E.
  - apply Qle_bool_iff in E. exfalso.
    assert (C : (0 <= inject_Z (-1))%Q) by (eapply Qle_trans; eassumption).
    unfold Qle in C. simpl in C. lia.
  - apply Qceiling_resp_le in Hq. rewrite Qceiling_Z in Hq. lia.
Qed.

Lemma StronglySorted_shift (sr c : Z) (l : list Z) :
  StronglySorted (gap sr) l ->
  StronglySorted (gap sr) (map (fun p => p - c) l).
Proof.
  induction 1 as [| x l Hs IH Hx]; simpl; constructor.
  - exact IH.
  - apply Forall_map. eapply Forall_impl; [| exact Hx].
    unfold gap. intros; lia.
Qed.

Lemma gap_refractory_spaced (sr : Z) (l : list Z) :
  0 < sr -> StronglySorted (gap sr) l -> refractory_spaced sr l.
Proof.
  intros Hsr H. apply StronglySorted_Sorted.
  induction H as [| x l Hs IH Hx]; constructor.
  - exact IH.
  - eapply Forall_impl; [| exact Hx]. unfold gap, refractory_apart.
    intros b Hb. split; [lia |]. apply Qlt_le_weak, minimumRR_lt. exact Hb.
Qed.

(** ** Single-lead detection *)

(** The stages of a run that returns. *)
Lemma detect_filtered_Ok (sr : Z) (filtered_ecg : list Q) (out : list Z) :
  detect_filtered sr filtered_ecg = Ok out ->
  exists int_ecg st peaks st',
    _mw_integrate sr (map Qabs (diff filtered_ecg)) = Ok int_ecg /\
    _initializeBuffers sr int_ecg [] = Ok st /\
    peakDetect sr int_ecg = Ok peaks /\
    checkPeaks sr st peaks int_ecg = Ok st' /\
    out = map (compensate sr) (QRSpeaks st').
Proof.
  unfold detect_filtered. intros H.
  apply bind_Ok in H. destruct H as (int_ecg & H1 & H).
  apply bind_Ok in H. destruct H as (st & H2 & H).
  apply bind_Ok in H. destruct H as (peaks & H3 & H).
  apply bind_Ok in H. destruct H as (st' & H4 & H).
  apply Ok_inj in H. exists int_ecg, st, peaks, st'. auto.
Qed.

Lemma detect_filtered_spaced (sr : Z) (filtered_ecg : list Q) (out : list Z) :
  0 < sr -> (25 | sr) ->
  detect_filtered sr filtered_ecg = Ok out ->
  StronglySorted (gap sr) out.
Proof.
  intros Hsr Hd H. apply detect_filtered_Ok in H.
  destruct H as (int_ecg & st & peaks & st' & _ & _ & Hp & Hc & ->).
  apply checkPeaks_inv in Hc. destruct Hc as [_ Hs].
  apply peakDetect_sorted in Hp; [| lia].
  rewrite (map_ext _ (fun p => p - sr / 25))
    by (intros p; apply compensate_exact; exact Hd).
  apply StronglySorted_shift.
  exact (subseq_StronglySorted _ _ _ Hs Hp).
Qed.

Section SingleLead.

Variable _bpfilter : Z -> list Q -> result (list Q).

(** C2, amended: for a single lead sampled at a multiple of 25 Hz
    (the delay offset is then a whole number of samples) the returned
    sequence is strictly increasing and consecutive indices are not
    closer than the refractory distance, whatever the band-pass stage
    returns. *)
Theorem qrs_detect_refractory_spaced (d : QRSDetector) (qrslead : Z)
        (out : list Z) :
  0 < samplingrate d -> (25 | samplingrate d) ->
  qrs_detect _bpfilter d qrslead = Ok out ->
  refractory_spaced (samplingrate d) out.
Proof.
  intros Hsr Hd H. unfold qrs_detect in H.
  apply bind_Ok in H. destruct H as (raw_ecg & _ & H).
  apply bind_Ok in H. destruct H as (filtered_ecg & _ & H).
  apply gap_refractory_spaced; [exact Hsr |].
  exact (detect_filtered_spaced _ _ _ Hsr Hd H).
Qed.

End SingleLead.

Lemma qrs_detect_refractory_spaced_early_beat :
  qrs_detect pass_through early_beat_detector 0 = Ok [-1; 101] /\
  refractory_spaced 50 [-1; 101].
Proof.
  split; [vm_compute; reflexivity |].
  apply (qrs_detect_refractory_spaced pass_through early_beat_detector 0).
  - simpl. lia.
  - exists 2. reflexivity.
  - vm_compute. reflexivity.
Defined.

Lemma not_refractory_spaced_decreasing (sr a b : Z) (l : list Z) :
  b <= a -> ~ refractory_spaced sr (a :: b :: l).
Proof.
  intros Hle H. unfold refractory_spaced in H.
  apply Sorted_inv in H. destruct H as [_ H].
  apply HdRel_inv in H. destruct H as [H _]. lia.
Qed.

(** C2, as stated, fails for several leads.  Each lead below is
    strictly increasing with beats 300 ms apart; the lead with one beat
    more meets the zero fill of the other two in the last row, the
    reconciler overwrites its beat with the row median 0, and the
    consensus is [100; 0].  The same happens from a recording of three
    leads run through the whole of [qrs_detect_multiple_leads]. *)
Lemma multilead_consensus_not_increasing :
  Forall (refractory_spaced 1000) extra_beat_leads /\
  reconcile_leads 10 1000 extra_beat_leads = Some (Ok [100; 0]) /\
  ~ refractory_spaced 1000 [100; 0] /\
  QRSDetector_init three_lead_recording 50 = Ok three_lead_detector /\
  qrs_detect_multiple_leads pass_through 10 three_lead_detector []
  = Some (Ok [101; 0]) /\
  ~ refractory_spaced 50 [101; 0].
Proof.
  split; [| split; [| split; [| split; [| split]]]].
  - repeat constructor; vm_compute; discriminate.
  - vm_compute. reflexivity.
  - apply not_refractory_spaced_decreasing. lia.
  - vm_compute. reflexivity.
  - vm_compute. reflexivity.
  - apply not_refractory_spaced_decreasing. lia.
Qed.

(** Why the sampling rate is taken as a multiple of 25 Hz: at 128 Hz
    the offset is 5.12 samples, the beats at samples 5 and 31 are 26
    samples apart (the refractory distance is 25.6) and the cast sends
    them to 0 and 25. *)
Lemma rounding_brings_beats_closer :
  detect_filtered 128 trace_128Hz = Ok [0; 25] /\
  ~ refractory_spaced 128 [0; 25].
Proof.
  split; [vm_compute; reflexivity |].
  intros H. unfold refractory_spaced in H.
  apply Sorted_inv in H. destruct H as [_ H].
  apply HdRel_inv in H. destruct H as [_ H].
  vm_compute in H. apply H. reflexivity.
Qed.

(** C10: every accepted heartbeat index is returned less the offset
    [40 * (samplingrate / 1000)], and the difference has no lower
    bound.  On [early_beat_filtered], 406 samples at 50 Hz, the
    integrated signal has a strict local maximum at sample 1 (20 ms)
    which is accepted as a heartbeat; the offset is 2 samples and the
    detector returns the index -1, whatever band-pass stage produced
    the trace. *)
Theorem qrs_detect_returns_negative_index :
  (forall sr filtered_ecg out,
     detect_filtered sr filtered_ecg = Ok out ->
     exists int_ecg st peaks st',
       _mw_integrate sr (map Qabs (diff filtered_ecg)) = Ok int_ecg /\
       _initializeBuffers sr int_ecg [] = Ok st /\
       peakDetect sr int_ecg = Ok peaks /\
       checkPeaks sr st peaks int_ecg = Ok st' /\
       out = map (compensate sr) (QRSpeaks st')) /\
  (forall sr p, (inject_Z p + 1 <= 40 * (inject_Z sr / 1000))%Q ->
                compensate sr p < 0) /\
  QRSDetector_init (Vector early_beat_filtered) 50 = Ok early_beat_detector /\
  peakDetect 50 early_beat_integrated = Ok [1; 103] /\
  (exists st st',
     _initializeBuffers 50 early_beat_integrated [] = Ok st /\
     checkPeaks 50 st [1; 103] early_beat_integrated = Ok st' /\
     QRSpeaks st' = [1; 103]) /\
  detect_filtered 50 early_beat_filtered = Ok [-1; 101] /\
  qrs_detect pass_through early_beat_detector 0 = Ok [-1; 101] /\
  (forall bp d lead raw,
     samplingrate d = 50 -> column d lead = Ok raw ->
     bp 50 raw = Ok early_beat_filtered ->
     qrs_detect bp d lead = Ok [-1; 101]).
Proof.
  split; [exact detect_filtered_Ok |].
  split; [exact compensate_negative |].
  split; [vm_compute; reflexivity |].
  split; [vm_compute; reflexivity |].
  split.
  { destruct (_initializeBuffers 50 early_beat_integrated []) as [st | e] eqn:E0;
      [| vm_compute in E0; discriminate].
    exists st. vm_compute in E0. apply Ok_inj in E0. subst st.
    eexists. split; [reflexivity |]. split; vm_compute; reflexivity. }
  split; [vm_compute; reflexivity |].
  split; [vm_compute; reflexivity |].
  intros bp d lead raw Hsr Hc Hb. unfold qrs_detect.
  rewrite Hc. cbn [bind]. rewrite Hsr, Hb. cbn [bind].
  vm_compute. reflexivity.
Qed.

(** ** Cells of the peak matrix *)

Lemma nth_set_nth {A : Type} (l : list A) (j k : nat) (v d : A) :
  nth k (set_nth l j v) d =
  if (k =? j)%nat && (j <? List.length l)%nat then v else nth k l d.
Proof.
  revert j k. induction l as [| x l IH]; intros j k.
  - simpl. rewrite andb_false_r. reflexivity.
  - destruct j as [| j]; destruct k as [| k]; simpl; try reflexivity.
    rewrite IH. reflexivity.
Qed.

Lemma length_set_nth {A : Type} (l : list A) (j : nat) (v : A) :
  List.length (set_nth l j v) = List.length l.
Proof.
  revert j. induction l as [| x l IH]; intros [| j]; simpl; auto.
Qed.

Lemma length_col_assign (m : matrix) (j lo : nat) (vals : list Z) :
  List.length (col_assign m j lo vals) = List.length m.
Proof.
  revert lo vals. induction m as [| r m IH]; intros lo vals; simpl.
  - reflexivity.
  - destruct lo as [| lo]; [destruct vals as [| v vals] |]; simpl; auto.
Qed.

(** A slice assignment into a column rewrites the rows it covers and no
    other. *)
Lemma row_col_assign (m : matrix) (j : nat) :
  forall (lo : nat) (vals : list Z) (r : nat),
    row (col_assign m j lo vals) r =
    if (lo <=? r)%nat && (r <? lo + List.length vals)%nat &&
       (r <? List.length m)%nat
    then set_nth (row m r) j (nth (r - lo) vals 0)
    else row m r.
Proof.
  unfold row. induction m as [| x m IH]; intros lo vals r.
  - replace ((lo <=? r)%nat && (r <? lo + List.length vals)%nat &&
             (r <? List.length (@nil (list Z)))%nat) with false
      by (symmetry; apply not_true_is_false; intros C;
          rewrite !andb_true_iff, !Nat.ltb_lt in C; simpl in C; lia).
    destruct lo; destruct r; reflexivity.
  - destruct lo as [| lo].
    + destruct vals as [| v vals].
      * replace ((0 <=? r)%nat && (r <? 0 + List.length (@nil Z))%nat &&
                 (r <? List.length (x :: m))%nat) with false
          by (symmetry; apply not_true_is_false; intros C;
              rewrite !andb_true_iff, !Nat.ltb_lt in C; simpl in C; lia).
        reflexivity.
      * cbn [col_assign]. destruct r as [| r].
        -- reflexivity.
        -- cbn [nth]. rewrite IH.
           replace ((0 <=? S r)%nat && (S r <? 0 + List.length (v :: vals))%nat &&
                    (S r <? List.length (x :: m))%nat)
             with ((0 <=? r)%nat && (r <? 0 + List.length vals)%nat &&
                   (r <? List.length m)%nat) by bool_eq.
           cbn [Nat.sub nth]. rewrite Nat.sub_0_r. reflexivity.
    + cbn [col_assign]. destruct r as [| r].
      * reflexivity.
      * cbn [nth]. rewrite IH.
        replace ((S lo <=? S r)%nat && (S r <? S lo + List.length vals)%nat &&
                 (S r <? List.length (x :: m))%nat)
          with ((lo <=? r)%nat && (r <? lo + List.length vals)%nat &&
                (r <? List.length m)%nat) by bool_eq.
        reflexivity.
Qed.

Lemma nth_nil_Z (j : nat) : nth j (@nil Z) 0 = 0.
Proof. destruct j; reflexivity. Qed.

Lemma length_col_slice (m : matrix) (j lo hi : nat) :
  (hi <= List.length m)%nat ->
  List.length (col_slice m j lo hi) = (hi - lo)%nat.
Proof.
  intros H. unfold col_slice.
  rewrite length_map, length_firstn, length_skipn. lia.
Qed.

Lemma nth_col_slice (m : matrix) (j lo hi i : nat) :
  (i < hi - lo)%nat -> nth i (col_slice m j lo hi) 0 = cell m (lo + i) j.
Proof.
  intros H. unfold col_slice, cell, row.
  rewrite <- (nth_nil_Z j) at 1.
  rewrite (map_nth (fun r => nth j r 0)), nth_firstn, nth_skipn.
  apply Nat.ltb_lt in H. rewrite H. reflexivity.
Qed.

Lemma row_set_cell (m : matrix) (r j : nat) (v : Z) (r' : nat) :
  row (set_cell m r j v) r' =
  if (r' =? r)%nat && (r <? List.length m)%nat
  then set_nth (row m r) j v
  else row m r'.
Proof. unfold set_cell, row. apply nth_set_nth. Qed.

Lemma length_set_cell (m : matrix) (r j : nat) (v : Z) :
  List.length (set_cell m r j v) = List.length m.
Proof. apply length_set_nth. Qed.

Lemma rectangular_row (Nleads : nat) (m : matrix) (r : nat) :
  rectangular Nleads m -> (r < List.length m)%nat ->
  List.length (row m r) = Nleads.
Proof.
  intros H Hr. unfold rectangular in H. rewrite Forall_forall in H.
  apply H. apply nth_In. exact Hr.
Qed.

Lemma cell_col_assign (m : matrix) (j lo : nat) (vals : list Z) (r k : nat) :
  cell (col_assign m j lo vals) r k =
  if (lo <=? r)%nat && (r <? lo + List.length vals)%nat &&
     (r <? List.length m)%nat && (k =? j)%nat &&
     (j <? List.length (row m r))%nat
  then nth (r - lo) vals 0
  else cell m r k.
Proof.
  unfold cell. rewrite row_col_assign.
  destruct ((lo <=? r)%nat && (r <? lo + List.length vals)%nat &&
            (r <? List.length m)%nat); cbn [andb]; [| reflexivity].
  apply nth_set_nth.
Qed.

Lemma cell_set_cell (m : matrix) (r j : nat) (v : Z) (r' k : nat) :
  cell (set_cell m r j v) r' k =
  if (r' =? r)%nat && (r <? List.length m)%nat && (k =? j)%nat &&
     (j <? List.length (row m r))%nat
  then v
  else cell m r' k.
Proof.
  unfold cell. rewrite row_set_cell.
  destruct (Nat.eqb_spec r' r) as [-> | Hr]; cbn [andb]; [| reflexivity].
  destruct (r <? List.length m)%nat; cbn [andb]; [| reflexivity].
  apply nth_set_nth.
Qed.

(** The two assignments of the branch "max is wrong", cell by cell. *)
Lemma push_down_spec (Nleads : nat) (m : matrix) (cur j : nat) :
  rectangular Nleads m -> (cur < List.length m)%nat -> (j < Nleads)%nat ->
  pushed_down m (push_down m cur j) cur j (py_int (median (row m cur))).
Proof.
  intros Hrect Hcur Hj. unfold pushed_down, push_down.
  set (vals := col_slice m j cur (List.length m - 1)).
  assert (Hlen : List.length vals = (List.length m - 1 - cur)%nat)
    by (apply length_col_slice; lia).
  assert (Hrow : row (col_assign m j (cur + 1) vals) cur = row m cur).
  { rewrite row_col_assign.
    destruct (_ && _ && _) eqn:E; [| reflexivity]. split_cond E. lia. }
  rewrite Hrow.
  set (v := py_int (median (row m cur))).
  split; [| split; [| split; [| split]]].
  - rewrite length_set_cell, length_col_assign. reflexivity.
  - intros r k Hk. rewrite cell_set_cell, cell_col_assign.
    destruct (_ && _ && _ && _) eqn:E1; [split_cond E1; lia |].
    destruct (_ && _ && _ && _ && _) eqn:E2; [split_cond E2; lia |].
    reflexivity.
  - intros r Hr. rewrite cell_set_cell, cell_col_assign.
    destruct (_ && _ && _ && _) eqn:E1; [split_cond E1; lia |].
    destruct (_ && _ && _ && _ && _) eqn:E2; [split_cond E2; lia |].
    reflexivity.
  - rewrite cell_set_cell. rewrite length_col_assign, Hrow.
    rewrite (rectangular_row Nleads m cur Hrect Hcur).
    destruct (_ && _ && _ && _) eqn:E1; [reflexivity |].
    split_cond E1. lia.
  - intros r Hr. rewrite cell_set_cell, cell_col_assign.
    destruct (_ && _ && _ && _) eqn:E1; [split_cond E1; lia |].
    rewrite (rectangular_row Nleads m r Hrect) by lia.
    destruct (_ && _ && _ && _ && _) eqn:E2.
    + unfold vals. rewrite nth_col_slice by lia. f_equal. lia.
    + split_cond E2. lia.
Qed.

(** ** One turn of the reconciliation loop *)

Lemma fold_left_max_in (l : list Z) :
  forall x, fold_left Z.max l x = x \/ In (fold_left Z.max l x) l.
Proof.
  induction l as [| y l IH]; intros x; simpl.
  - left. reflexivity.
  - destruct (IH (Z.max x y)) as [H | H].
    + rewrite H. destruct (Z.max_spec x y) as [[_ E] | [_ E]]; rewrite E; auto.
    + right. right. exact H.
Qed.

Lemma row_max_in (l : list Z) : l <> [] -> In (row_max l) l.
Proof.
  destruct l as [| x l]; [congruence |]. intros _. unfold row_max. simpl.
  destruct (fold_left_max_in l x) as [H | H]; [left; symmetry | right]; exact H.
Qed.

Lemma index_of_lt (v : Z) (l : list Z) :
  In v l -> (index_of v l < List.length l)%nat.
Proof.
  induction l as [| x l IH]; intros H; [destruct H |]. simpl.
  destruct (Z.eqb_spec x v) as [E | E]; [lia |].
  destruct H as [H | H]; [congruence |]. specialize (IH H). lia.
Qed.

(** The lead reported as the outer one is a column of the array. *)
Lemma argmax_lt (l : list Z) : l <> [] -> (argmax l < List.length l)%nat.
Proof. intros H. apply index_of_lt, row_max_in, H. Qed.

(** C5, amended: a row whose values all lie within 90 ms is accepted,
    its median appended and the row index advanced.  Otherwise, when
    [near_inner > near_outer], the column of the outer lead is pushed
    one row down from the current row on (its last value is lost), the
    row median is written in the current row, and the same row is tried
    again: neither the row index nor the consensus changes. *)
Theorem match_step_accepts_or_pushes_down (sr : Z) (Nleads : nat)
        (s : reconciler) :
  rectangular Nleads (peaks s) -> (0 < Nleads)%nat ->
  (current_peak s < List.length (peaks s))%nat ->
  (near_inner sr (row (peaks s) (current_peak s)) = Nleads /\
   near_outer sr (row (peaks s) (current_peak s)) = Nleads ->
   match_step sr Nleads s =
   Ok (mk_reconciler (peaks s) (current_peak s + 1)
         (consensus s ++
          [py_int (median (row (peaks s) (current_peak s)))]))) /\
  (~ (near_inner sr (row (peaks s) (current_peak s)) = Nleads /\
      near_outer sr (row (peaks s) (current_peak s)) = Nleads) ->
   (near_outer sr (row (peaks s) (current_peak s)) <
    near_inner sr (row (peaks s) (current_peak s)))%nat ->
   exists peaks',
     match_step sr Nleads s =
     Ok (mk_reconciler peaks' (current_peak s) (consensus s)) /\
     pushed_down (peaks s) peaks' (current_peak s)
                 (argmax (row (peaks s) (current_peak s)))
                 (py_int (median (row (peaks s) (current_peak s))))).
Proof.
  intros Hrect HN Hcur.
  pose proof (rectangular_row Nleads _ _ Hrect Hcur) as Hlen.
  unfold match_step.
  set (all_values := row (peaks s) (current_peak s)) in *.
  assert (Hne : all_values <> []).
  { intros E. rewrite E in Hlen. simpl in Hlen. lia. }
  destruct all_values as [| x rest] eqn:Eall; [congruence |].
  rewrite <- Eall in *. split.
  - intros [Hi Ho]. rewrite Hi, Ho, Nat.eqb_refl. reflexivity.
  - intros Hnot Hlt.
    destruct ((near_inner sr all_values =? near_outer sr all_values)%nat &&
              (near_outer sr all_values =? Nleads)%nat) eqn:E.
    + split_cond E. exfalso. apply Hnot. lia.
    + apply Nat.ltb_lt in Hlt. rewrite Hlt. eexists. split; [reflexivity |].
      unfold all_values.
      apply (push_down_spec Nleads); [exact Hrect | exact Hcur |].
      fold all_values. rewrite <- Hlen. apply argmax_lt. exact Hne.
Qed.

Lemma match_step_accepts_or_pushes_down_late_third_lead :
  (near_inner 1000 (row late_third_lead 0) = 3%nat /\
   near_outer 1000 (row late_third_lead 0) = 3%nat ->
   match_step 1000 3 (mk_reconciler late_third_lead 0 []) =
   Ok (mk_reconciler late_third_lead 1
         ([] ++ [py_int (median (row late_third_lead 0))]))) /\
  (~ (near_inner 1000 (row late_third_lead 0) = 3%nat /\
      near_outer 1000 (row late_third_lead 0) = 3%nat) ->
   Nat.lt (near_outer 1000 (row late_third_lead 0))
          (near_inner 1000 (row late_third_lead 0)) ->
   exists peaks',
     match_step 1000 3 (mk_reconciler late_third_lead 0 []) =
     Ok (mk_reconciler peaks' 0 []) /\
     pushed_down late_third_lead peaks' 0 (argmax (row late_third_lead 0))
                 (py_int (median (row late_third_lead 0)))).
Proof.
  apply (match_step_accepts_or_pushes_down 1000 3
           (mk_reconciler late_third_lead 0 [])).
  - repeat constructor.
  - lia.
  - simpl. lia.
Defined.

(** C5, as stated, fails in its second half: with the third lead 400 ms
    late in the first row, [near_inner = 2 > near_outer = 1]; the value
    500 of the third lead is not removed, it moves to the second row,
    and the rows below are not pulled up. *)
Lemma outer_value_is_pushed_down_not_removed :
  near_inner 1000 (row late_third_lead 0) = 2%nat /\
  near_outer 1000 (row late_third_lead 0) = 1%nat /\
  argmax (row late_third_lead 0) = 2%nat /\
  match_step 1000 3 (mk_reconciler late_third_lead 0 []) =
  Ok (mk_reconciler
        [[100; 100; 100]; [1100; 1100; 500]; [2100; 2100; 1100]] 0 []) /\
  ~ removed_and_pulled_up late_third_lead
      [[100; 100; 100]; [1100; 1100; 500]; [2100; 2100; 1100]] 0 2.
Proof.
  repeat split; try (vm_compute; reflexivity).
  intros H. specialize (H 0%nat (Nat.le_refl 0)).
  assert (L : (1 < List.length late_third_lead)%nat) by (simpl; lia).
  specialize (H L). vm_compute in H. discriminate.
Qed.

(** ** Zero-phase filtering *)

Lemma bind_Raise {A B : Type} (r : result A) (k : A -> result B) (e : exn) :
  bind r k = Raise e -> r = Raise e \/ exists a, r = Ok a /\ k a = Raise e.
Proof.
  destruct r as [a | e']; simpl; intros H.
  - right. exists a. split; [reflexivity | exact H].
  - left. injection H as ->. reflexivity.
Qed.

Lemma getitem_Raise {A : Type} (l : list A) (i : Z) (e : exn) :
  getitem l i = Raise e -> e = IndexError.
Proof.
  unfold getitem. destruct (_ && _); [destruct (nth_error _ _) |];
    intros H; congruence.
Qed.

Lemma getitem_first {A : Type} (x : A) (l : list A) :
  getitem (x :: l) 0 = Ok x.
Proof.
  unfold getitem. cbn [Z.ltb Z.compare List.length].
  replace ((0 <=? 0) && (0 <? Z.of_nat (S (List.length l)))) with true
    by (symmetry; apply andb_true_iff; split; [reflexivity | apply Z.ltb_lt; lia]).
  reflexivity.
Qed.

Lemma getitem_last {A : Type} (l : list A) :
  l <> [] -> exists v, getitem l (-1) = Ok v.
Proof.
  intros H. unfold getitem. cbn [Z.ltb Z.compare].
  assert (Hl : (0 < List.length l)%nat) by (destruct l; [congruence | simpl; lia]).
  replace ((0 <=? -1 + Z.of_nat (List.length l)) &&
           (-1 + Z.of_nat (List.length l) <? Z.of_nat (List.length l))) with true
    by (symmetry; apply andb_true_iff; split;
        [apply Z.leb_le | apply Z.ltb_lt]; lia).
  destruct (nth_error l (Z.to_nat (-1 + Z.of_nat (List.length l)))) eqn:E.
  - eexists. reflexivity.
  - apply nth_error_None in E. lia.
Qed.

Lemma length_slice {A : Type} (l : list A) (a b : Z) :
  0 <= a <= b -> b <= len l -> len (slice l a b) = b - a.
Proof.
  intros Ha Hb. unfold slice, len, clamp_index in *.
  destruct (Z.ltb_spec a 0); [lia |]. destruct (Z.ltb_spec b 0); [lia |].
  rewrite length_firstn, length_skipn. lia.
Qed.

Lemma length_map2 {A B C : Type} (f : A -> B -> C) (l : list A) (r : list B) :
  List.length (map2 f l r) = Nat.min (List.length l) (List.length r).
Proof.
  revert r. induction l as [| x l IH]; intros [| y r]; simpl; auto.
Qed.

Lemma eye_Ok (k : Z) :
  0 <= k ->
  exists m, eye k = Ok m /\ List.length m = Z.to_nat k /\
            Forall (fun r => List.length r = Z.to_nat k) m.
Proof.
  intros H. unfold eye. destruct (Z.ltb_spec k 0); [lia |].
  eexists. split; [reflexivity |]. split.
  - rewrite length_map, length_seq. reflexivity.
  - apply Forall_forall. intros r Hr. apply in_map_iff in Hr.
    destruct Hr as (i & <- & _). rewrite length_map, length_seq. reflexivity.
Qed.

Lemma eye_negative (k : Z) :
  k < 0 -> eye k = Raise (ValueError msg_negative_dim).
Proof. intros H. unfold eye. destruct (Z.ltb_spec k 0); [reflexivity | lia]. Qed.

Lemma vstack_Ok (top bottom : list (list Q)) (c : nat) :
  Forall (fun r => List.length r = c) top ->
  Forall (fun r => List.length r = c) bottom ->
  vstack top bottom = Ok (top ++ bottom).
Proof.
  intros Ht Hb. unfold vstack.
  assert (H : Forall (fun r => List.length r = c) (top ++ bottom))
    by (apply Forall_app; split; assumption).
  replace (forallb _ (top ++ bottom)) with true; [reflexivity |].
  symmetry. apply forallb_forall. intros r Hr. apply Nat.eqb_eq.
  rewrite Forall_forall in H. rewrite (H r Hr). unfold ncols.
  destruct (top ++ bottom) as [| r0 m] eqn:E; [destruct Hr |].
  simpl. symmetry. apply H. left. reflexivity.
Qed.

Lemma padded_lengths (b a : list Q) :
  let n := ntaps b a in
  let a' := if len a <? n then a ++ repeat 0%Q (Z.to_nat (len b - len a))
            else a in
  let b' := if len b <? n then b ++ repeat 0%Q (Z.to_nat (len a' - len b))
            else b in
  len a' = n /\ len b' = n.
Proof.
  unfold ntaps, len. cbv zeta.
  destruct (Z.ltb_spec (Z.of_nat (List.length a))
              (Z.max (Z.of_nat (List.length a)) (Z.of_nat (List.length b)))).
  - rewrite length_app, repeat_length.
    destruct (Z.ltb_spec (Z.of_nat (List.length b))
                (Z.max (Z.of_nat (List.length a)) (Z.of_nat (List.length b))));
      [lia |]. lia.
  - destruct (Z.ltb_spec (Z.of_nat (List.length b))
                (Z.max (Z.of_nat (List.length a)) (Z.of_nat (List.length b)))).
    + rewrite length_app, repeat_length. lia.
    + lia.
Qed.

Section ScipyFacts.

Variable linalg_inv : list (list Q) -> option (list (list Q)).
Variable lfilter :
  list Q -> list Q -> list Q -> list Q -> option (list Q * list Q).

(** With fewer than two coefficients the identity of order [n - 2]
    has a negative dimension. *)
Lemma _lfilter_zin_short (a : list Q) (n : Z) :
  n < 2 -> _lfilter_zin a n = Raise (ValueError msg_negative_dim).
Proof.
  intros H. unfold _lfilter_zin.
  destruct (Z.ltb_spec (n - 1) 0) as [H1 | H1].
  - rewrite eye_negative by lia. reflexivity.
  - destruct (eye_Ok (n - 1) H1) as (m & -> & _). cbn [bind].
    rewrite eye_negative by lia. reflexivity.
Qed.

(** With two coefficients or more the system is assembled. *)
Lemma _lfilter_zin_Ok (a : list Q) (n : Z) :
  2 <= n -> len a = n -> exists zin, _lfilter_zin a n = Ok zin.
Proof.
  intros Hn Ha. unfold _lfilter_zin.
  destruct (eye_Ok (n - 1)) as (m1 & -> & _); [lia |]. cbn [bind].
  destruct (eye_Ok (n - 2)) as (m2 & -> & Hl2 & Hc2); [lia |]. cbn [bind].
  unfold zeros. destruct (Z.ltb_spec (n - 2) 0); [lia |]. cbn [bind].
  rewrite (vstack_Ok m2 _ (Z.to_nat (n - 2))); [| exact Hc2 |].
  2:{ constructor; [apply repeat_length | constructor]. }
  cbn [bind]. unfold hstack.
  replace (_ =? _)%nat with true.
  - cbn [bind]. eexists. reflexivity.
  - symmetry. apply Nat.eqb_eq. rewrite length_map, length_app, Hl2.
    pose proof (length_slice a 1 n) as Hs. unfold len in Hs, Ha.
    cbn [List.length]. lia.
Qed.

Lemma _lfilter_zi_short (b a : list Q) :
  Z.max (len a) (len b) < 2 ->
  _lfilter_zi linalg_inv b a = Raise (ValueError msg_negative_dim).
Proof.
  intros H. unfold _lfilter_zi. rewrite _lfilter_zin_short by exact H.
  reflexivity.
Qed.

(** With two coefficients or more in both polynomials only the
    inversion can fail. *)
Lemma _lfilter_zi_cases (b a : list Q) (n : Z) :
  2 <= n -> len a = n -> len b = n ->
  _lfilter_zi linalg_inv b a = Raise LinAlgError \/
  exists zi, _lfilter_zi linalg_inv b a = Ok zi.
Proof.
  intros Hn Ha Hb. unfold _lfilter_zi.
  replace (Z.max (len a) (len b)) with n by lia.
  destruct (_lfilter_zin_Ok a n Hn Ha) as (zin & ->). cbn [bind].
  destruct b as [| b0 b']; [unfold len in Hb; simpl in Hb; lia |].
  rewrite getitem_first. cbn [bind]. unfold broadcast2.
  replace (_ =? _)%nat with true.
  - cbn [bind]. destruct (linalg_inv zin); [right; eexists | left]; reflexivity.
  - symmetry. apply Nat.eqb_eq.
    pose proof (length_slice (b0 :: b') 1 n) as H1.
    pose proof (length_slice a 1 n) as H2. unfold len in *. lia.
Qed.

Lemma _lfilter_zi_Raise (b a : list Q) (e : exn) :
  _lfilter_zi linalg_inv b a = Raise e ->
  e = ValueError msg_negative_dim \/ e = ValueError msg_shape \/
  e = IndexError \/ e = LinAlgError.
Proof.
  unfold _lfilter_zi, _lfilter_zin, eye, zeros, vstack, hstack, broadcast2.
  intros H.
  repeat match type of H with
  | bind ?r _ = Raise _ =>
      apply bind_Raise in H; destruct H as [H | (? & _ & H)]
  | (if ?c then _ else _) = Raise _ => destruct c
  | getitem _ _ = Raise _ => apply getitem_Raise in H
  | match ?l with _ => _ end = Raise _ => destruct l
  | Raise _ = Raise _ => injection H as <-
  | Ok _ = Raise _ => discriminate H
  end; auto.
Qed.

Lemma grow_Ok (x : list Q) (edge : Z) :
  x <> [] -> exists s, grow x edge = Ok s /\ s <> [].
Proof.
  intros H. unfold grow. destruct x as [| x0 x']; [congruence |].
  rewrite getitem_first. cbn [bind].
  destruct (getitem_last (x0 :: x') H) as (v & ->). cbn [bind].
  eexists. split; [reflexivity |].
  intros C. apply app_eq_nil in C. destruct C as [_ C].
  apply app_eq_nil in C. destruct C as [C _]. congruence.
Qed.

(** What [filtfilt] can raise on a vector. *)
Lemma filtfilt_Nd1_Raise (b a : list Q) (samples : list Q) (e : exn) :
  filtfilt linalg_inv lfilter b a (Nd1 samples) = Raise e ->
  e = ValueError msg_too_short \/ e = ValueError msg_negative_dim \/
  e = ValueError msg_shape \/ e = IndexError \/ e = LinAlgError \/
  e = ValueError msg_lfilter.
Proof.
  unfold filtfilt, grow, lfilter_call. intros H.
  repeat match type of H with
  | bind (_lfilter_zi _ _ _) _ = Raise _ =>
      apply bind_Raise in H; destruct H as [H | (? & _ & H)];
      [apply _lfilter_zi_Raise in H; tauto |]
  | bind ?r _ = Raise _ =>
      apply bind_Raise in H; destruct H as [H | (? & _ & H)]
  | (if ?c then _ else _) = Raise _ => destruct c
  | getitem _ _ = Raise _ => apply getitem_Raise in H
  | match ?l with _ => _ end = Raise _ => destruct l
  | Raise _ = Raise _ => injection H as <-
  | Ok _ = Raise _ => discriminate H
  end; auto 10.
Qed.

End ScipyFacts.

Section FiltfiltErrors.

Variable linalg_inv : list (list Q) -> option (list (list Q)).
Variable lfilter :
  list Q -> list Q -> list Q -> list Q -> option (list Q * list Q).

Lemma filtfilt_not_vector (b a : list Q) (x : ndarray) :
  ndim x <> 1 -> filtfilt linalg_inv lfilter b a x = Raise (ValueError msg_not_1d).
Proof. destruct x; simpl; intros H; [reflexivity | lia | reflexivity]. Qed.

Lemma filtfilt_too_short (b a : list Q) (samples : list Q) :
  len samples < 3 * ntaps b a ->
  filtfilt linalg_inv lfilter b a (Nd1 samples) = Raise (ValueError msg_too_short).
Proof.
  intros H. unfold filtfilt, ntaps, size, len in *.
  destruct (Z.ltb_spec (Z.of_nat (List.length samples))
              (Z.max (Z.of_nat (List.length a)) (Z.of_nat (List.length b)) * 3));
    [reflexivity | lia].
Qed.

(** Past the two checks, what happens depends on the number of
    coefficients. *)
Lemma filtfilt_long_enough (b a : list Q) (samples : list Q) :
  3 * ntaps b a <= len samples ->
  (ntaps b a < 2 ->
   filtfilt linalg_inv lfilter b a (Nd1 samples) = Raise (ValueError msg_negative_dim)) /\
  (2 <= ntaps b a ->
   forall e, filtfilt linalg_inv lfilter b a (Nd1 samples) = Raise e ->
             e = LinAlgError \/ e = ValueError msg_lfilter \/ e = IndexError).
Proof.
  intros Hlong. pose proof (padded_lengths b a) as P. cbv zeta in P.
  unfold filtfilt, ntaps, size in *. fold (len samples).
  destruct (Z.ltb_spec (len samples) (Z.max (len a) (len b) * 3))
    as [Hlt | Hge]; [lia |].
  set (a' := if len a <? Z.max (len a) (len b)
             then a ++ repeat 0%Q (Z.to_nat (len b - len a)) else a) in *.
  set (b' := if len b <? Z.max (len a) (len b)
             then b ++ repeat 0%Q (Z.to_nat (len a' - len b)) else b) in *.
  destruct P as [Pa Pb]. split.
  - intros Hn. rewrite _lfilter_zi_short by lia. reflexivity.
  - intros Hn e H.
    destruct (_lfilter_zi_cases linalg_inv b' a' _ Hn Pa Pb) as [Hz | (zi & Hz)];
      rewrite Hz in H; cbn [bind] in H.
    + injection H as <-. auto.
    + assert (Hne : samples <> []).
      { intros ->. unfold len in *. simpl in *. lia. }
      destruct (grow_Ok samples (Z.max (len a) (len b) * 3) Hne)
        as (s & Hs & Hs').
      rewrite Hs in H. cbn [bind] in H.
      destruct s as [| s0 s]; [congruence |].
      rewrite getitem_first in H. cbn [bind] in H.
      unfold lfilter_call in H.
      repeat match type of H with
      | bind ?r _ = Raise _ =>
          apply bind_Raise in H; destruct H as [H | (? & _ & H)]
      | getitem _ _ = Raise _ => apply getitem_Raise in H
      | match ?l with _ => _ end = Raise _ => destruct l
      | Raise _ = Raise _ => injection H as <-
      | Ok _ = Raise _ => discriminate H
      end; auto.
Qed.

(** C6, amended: [filtfilt] raises its own two errors exactly when
    the input is not one-dimensional, respectively is a vector shorter
    than three times the number of coefficients
    [max(len(a), len(b))].  A vector that is long enough still fails
    when the filter has fewer than two coefficients (a negative array
    dimension in [_lfilter_zi]); with two coefficients or more it
    fails only if [scipy.linalg.inv] or [scipy.signal.lfilter] does
    (or returns an empty signal, whose last sample is then read). *)
Theorem filtfilt_raises_cases (b a : list Q) (x : ndarray) :
  (filtfilt linalg_inv lfilter b a x = Raise (ValueError msg_not_1d) <-> ndim x <> 1) /\
  (filtfilt linalg_inv lfilter b a x = Raise (ValueError msg_too_short) <->
   ndim x = 1 /\ size x < 3 * ntaps b a) /\
  (ndim x = 1 -> 3 * ntaps b a <= size x -> ntaps b a < 2 ->
   filtfilt linalg_inv lfilter b a x = Raise (ValueError msg_negative_dim)) /\
  (ndim x = 1 -> 3 * ntaps b a <= size x -> 2 <= ntaps b a ->
   forall e, filtfilt linalg_inv lfilter b a x = Raise e ->
             e = LinAlgError \/ e = ValueError msg_lfilter \/ e = IndexError).
Proof.
  split; [| split; [| split]].
  - split; [| apply filtfilt_not_vector].
    intros H. destruct x as [v | samples | rows]; simpl; try lia.
    apply filtfilt_Nd1_Raise in H. unfold msg_not_1d, msg_too_short,
      msg_negative_dim, msg_shape, msg_lfilter in H.
    repeat (destruct H as [H | H]; [discriminate H |]). discriminate H.
  - split.
    + intros H. destruct x as [v | samples | rows];
        [discriminate H | | discriminate H].
      split; [reflexivity |].
      destruct (Z.lt_ge_cases (size (Nd1 samples)) (3 * ntaps b a)) as [L | L];
        [exact L | exfalso].
      destruct (filtfilt_long_enough b a samples L) as [H1 H2].
      destruct (Z.lt_ge_cases (ntaps b a) 2) as [N | N].
      * rewrite (H1 N) in H. discriminate H.
      * specialize (H2 N _ H). unfold msg_too_short, msg_lfilter in H2.
        destruct H2 as [H2 | [H2 | H2]]; discriminate H2.
    + intros [Hd Hs]. destruct x as [v | samples | rows]; try discriminate Hd.
      apply filtfilt_too_short. exact Hs.
  - intros Hd Hs Hn. destruct x as [v | samples | rows]; try discriminate Hd.
    apply (filtfilt_long_enough b a samples Hs). exact Hn.
  - intros Hd Hs Hn. destruct x as [v | samples | rows]; try discriminate Hd.
    apply (filtfilt_long_enough b a samples Hs). exact Hn.
Qed.

(** The identity filter [b = a = [1]] on a vector of three samples:
    both preconditions hold and [filtfilt] raises. *)
Lemma filtfilt_single_coefficient :
  filtfilt linalg_inv lfilter [1%Q] [1%Q] (Nd1 [1; 2; 3]%Q) = Raise (ValueError msg_negative_dim).
Proof. reflexivity. Qed.

End FiltfiltErrors.

(** C6, as stated, fails whatever [scipy.linalg.inv] and
    [scipy.signal.lfilter] do: the identity filter [b = a = [1]] and a
    vector of three samples meet both preconditions, and [_lfilter_zi]
    raises on [scipy.eye(-1)]. *)
Lemma filtfilt_raises_on_good_input :
  ~ exists linalg_inv lfilter,
      filtfilt_raises_exactly_on_bad_input linalg_inv lfilter.
Proof.
  intros (linalg_inv & lfilter & H).
  destruct (H [1%Q] [1%Q] (Nd1 [1; 2; 3]%Q)) as [H1 _].
  destruct H1 as [C | C].
  - exists (ValueError msg_negative_dim).
    apply filtfilt_single_coefficient.
  - apply C. reflexivity.
  - vm_compute in C. discriminate C.
Qed.

(** With the reference routines: a first-order filter runs, a filter
    whose initial-state system is singular does not. *)
Example filtfilt_reference_runs :
  filtfilt inv_ref lfilter_ref [1 # 2; 1 # 2]%Q [1; -1 # 4]%Q
           (Nd1 [3; 3; 3; 3; 3; 3; 3; 3]%Q)
  = Ok [16 # 3; 16 # 3; 16 # 3; 16 # 3; 16 # 3; 16 # 3; 16 # 3; 16 # 3]%Q /\
  filtfilt inv_ref lfilter_ref [1; 0]%Q [1; -1]%Q
           (Nd1 [3; 3; 3; 3; 3; 3]%Q)
  = Raise LinAlgError.
Proof. split; vm_compute; reflexivity. Qed.


(** ** Further properties *)

(** A run of [checkPeaks] leaves the threshold at the value it had when
    the run started, and the heartbeats it accepts are some of the
    candidate peaks, in their order. *)
Theorem checkPeaks_keeps_threshold (sr : Z) (st st' : buffers)
        (peaks : list Z) (ecg : list Q) :
  checkPeaks sr st peaks ecg = Ok st' ->
  threshold st' = threshold st /\ subseq (QRSpeaks st') peaks.
Proof. apply checkPeaks_inv. Qed.

Lemma checkPeaks_keeps_threshold_early_beat :
  exists st st',
    _initializeBuffers 50 early_beat_integrated [] = Ok st /\
    checkPeaks 50 st [1; 103] early_beat_integrated = Ok st' /\
    threshold st' = threshold st /\ subseq (QRSpeaks st') [1; 103].
Proof.
  destruct (_initializeBuffers 50 early_beat_integrated []) as [st | e] eqn:E0;
    [| vm_compute in E0; discriminate].
  destruct (checkPeaks 50 st [1; 103] early_beat_integrated) as [st' | e] eqn:E1.
  - exists st, st'. split; [reflexivity |]. split; [exact E1 |].
    exact (checkPeaks_keeps_threshold 50 st st' [1; 103]
             early_beat_integrated E1).
  - exfalso. vm_compute in E0. apply Ok_inj in E0. subst st.
    vm_compute in E1. discriminate.
Defined.


(** The extractor returns exactly when the trace has a strict local
    maximum, and raises [IndexError] otherwise. *)
Theorem peakDetect_returns_or_raises (sr : Z) (ecg : list Q) :
  (returns (peakDetect sr ecg) <-> peak_indices ecg <> []) /\
  (peakDetect sr ecg = Raise IndexError <-> peak_indices ecg = []).
Proof.
  split; [apply peakDetect_returns_iff |]. split.
  - intros H. destruct (peak_indices ecg) as [| p0 rest] eqn:E; [reflexivity |].
    rewrite (peakDetect_nonempty sr ecg p0 rest E) in H. discriminate.
  - apply peakDetect_empty.
Qed.

(** The peaks the extractor returns are strictly increasing and more
    than the refractory distance apart, pair by pair. *)
Theorem peakDetect_refractory_spaced (sr : Z) (ecg : list Q) (out : list Z) :
  0 < sr -> peakDetect sr ecg = Ok out ->
  StronglySorted (fun a b => a < b /\ (minimumRR sr < inject_Z (b - a))%Q) out.
Proof.
  intros Hsr H. apply peakDetect_sorted in H; [| lia].
  induction H as [| x l Hs IH Hx]; constructor.
  - exact IH.
  - eapply Forall_impl; [| exact Hx]. unfold gap. intros b Hb.
    split; [lia | apply minimumRR_lt; exact Hb].
Qed.

Lemma peakDetect_refractory_spaced_early_beat :
  peakDetect 50 early_beat_integrated = Ok [1; 103] /\
  StronglySorted (fun a b => a < b /\ (minimumRR 50 < inject_Z (b - a))%Q)
                 [1; 103].
Proof.
  split; [vm_compute; reflexivity |].
  apply (peakDetect_refractory_spaced 50 early_beat_integrated [1; 103]).
  - lia.
  - vm_compute. reflexivity.
Defined.

(** ** What the extractor returns *)

Lemma scan_committed_candidates (m : Q) (l : list (Z * Q)) :
  forall (s : scan) (u : Z),
    In u (unique_peaks (fold_left (scan_step m) l s)) ->
    In u (unique_peaks s) \/ u = peak_candidate_index s \/
    exists a, In (u, a) l.
Proof.
  induction l as [| [p a] l IH]; intros s u H; cbn [fold_left] in H.
  - left. exact H.
  - apply IH in H. unfold scan_step in H.
    destruct (_ && _).
    + cbn [unique_peaks peak_candidate_index] in H.
      destruct H as [H | [-> | (a' & H)]].
      * left. exact H.
      * right. right. exists a. left. reflexivity.
      * right. right. exists a'. right. exact H.
    + destruct (Qlt_bool _ _).
      * cbn [unique_peaks peak_candidate_index] in H.
        destruct H as [H | [-> | (a' & H)]].
        -- apply in_app_or in H. destruct H as [H | [<- | []]].
           ++ left. exact H.
           ++ right. left. reflexivity.
        -- right. right. exists a. left. reflexivity.
        -- right. right. exists a'. right. exact H.
      * destruct H as [H | [H | (a' & H)]].
        -- left. exact H.
        -- right. left. exact H.
        -- right. right. exists a'. right. exact H.
Qed.

Lemma peakDetect_subset (sr : Z) (ecg : list Q) (out : list Z) :
  peakDetect sr ecg = Ok out ->
  forall u, In u out -> In u (peak_indices ecg).
Proof.
  intros H u Hu.
  destruct (peak_indices ecg) as [| p0 rest] eqn:E.
  - rewrite (peakDetect_empty sr ecg E) in H. discriminate.
  - rewrite (peakDetect_nonempty sr ecg p0 rest E) in H.
    apply Ok_inj in H. subst out.
    apply (scan_committed_candidates (minimumRR sr)
             (combine (p0 :: rest) (map (at_ ecg) (p0 :: rest)))
             (mk_scan [] p0 (at_ ecg p0))) in Hu.
    destruct Hu as [[] | [-> | (a & Ha)]].
    + left. reflexivity.
    + exact (in_combine_fst _ _ _ _ Ha).
Qed.

(** Every index the extractor returns is a strict local maximum of the
    trace, and lies strictly inside it. *)
Theorem peakDetect_returns_local_maxima (sr : Z) (ecg : list Q)
        (out : list Z) :
  peakDetect sr ecg = Ok out ->
  forall u, In u out ->
    1 <= u < Z.of_nat (List.length ecg) - 1 /\
    (at_ ecg (u - 1) < at_ ecg u)%Q /\ (at_ ecg (u + 1) < at_ ecg u)%Q.
Proof.
  intros H u Hu. apply (peakDetect_subset sr ecg out H) in Hu.
  apply peak_indices_spec in Hu. destruct Hu as [Hr Hp].
  split; [exact Hr |]. unfold is_peak in Hp.
  apply andb_true_iff in Hp. destruct Hp as [H1 H2].
  split; apply Qlt_bool_iff; assumption.
Qed.

Lemma peakDetect_returns_local_maxima_three_peaks :
  peakDetect 1000 three_peaks = Ok [250] /\
  1 <= 250 < Z.of_nat (List.length three_peaks) - 1 /\
  (at_ three_peaks (250 - 1) < at_ three_peaks 250)%Q /\
  (at_ three_peaks (250 + 1) < at_ three_peaks 250)%Q.
Proof.
  split; [vm_compute; reflexivity |].
  apply (peakDetect_returns_local_maxima 1000 three_peaks [250]).
  - vm_compute. reflexivity.
  - left. reflexivity.
Defined.

(** ** The stages of a detection run *)

Lemma length_cumsum_from (l : list Q) :
  forall acc, List.length (cumsum_from acc l) = List.length l.
Proof. induction l as [| x l IH]; intros acc; simpl; auto. Qed.

Lemma length_cumsum (l : list Q) : List.length (cumsum l) = List.length l.
Proof. apply length_cumsum_from. Qed.

Lemma length_diff (l : list Q) :
  List.length (diff l) = (List.length l - 1)%nat.
Proof.
  unfold diff. rewrite length_map2. destruct l as [| x l]; simpl; lia.
Qed.

Lemma length_range (lo hi : Z) :
  List.length (range lo hi) = Z.to_nat (hi - lo).
Proof. unfold range. rewrite length_map, length_seq. reflexivity. Qed.

(** The window is 80 ms in whole samples, rounded down. *)
Lemma window_length_floor (sr : Z) :
  0 <= sr -> window_length sr = 80 * sr / 1000.
Proof.
  intros H. unfold window_length.
  rewrite <- (py_int_div (80 * sr) 1000) by lia.
  apply py_int_comp. rewrite inject_Z_mult.
  change (inject_Z 80) with 80%Q. change (inject_Z 1000) with 1000%Q. field.
Qed.

(** The integrated trace is as long as the trace that is integrated. *)
Lemma _mw_integrate_Ok (sr : Z) (ecg : list Q) :
  1 <= window_length sr <= len ecg ->
  exists int_ecg, _mw_integrate sr ecg = Ok int_ecg /\
                  List.length int_ecg = List.length ecg.
Proof.
  intros H. unfold _mw_integrate, len in *.
  set (w := window_length sr) in *.
  destruct (Z.eqb_spec w 0) as [E | _]; [lia |]. cbn [andb orb].
  destruct (Z.ltb_spec (Z.of_nat (List.length ecg)) w) as [E | _]; [lia |].
  cbn [andb]. eexists. split; [reflexivity |].
  rewrite length_app, !length_map2, length_range, length_skipn.
  unfold slice, clamp_index. rewrite !length_firstn, !length_skipn, length_cumsum.
  destruct (Z.ltb_spec 0 0); [lia |]. destruct (Z.ltb_spec w 0); [lia |].
  destruct (Z.ltb_spec (- w) 0); [| lia]. lia.
Qed.

Lemma getitem_in_range {A : Type} (l : list A) (i : Z) :
  0 <= i < len l -> exists v, getitem l i = Ok v.
Proof.
  intros H. unfold getitem, len in *.
  destruct (Z.ltb_spec i 0) as [E | _]; [lia |].
  replace ((0 <=? i) && (i <? Z.of_nat (List.length l))) with true
    by (symmetry; apply andb_true_iff; split;
        [apply Z.leb_le | apply Z.ltb_lt]; lia).
  destruct (nth_error l (Z.to_nat i)) eqn:E.
  - eexists. reflexivity.
  - apply nth_error_None in E. lia.
Qed.

Lemma collect_length {A : Type} (l : list (result A)) (r : list A) :
  collect l = Ok r -> List.length r = List.length l.
Proof.
  revert r. induction l as [| x l IH]; intros r H; simpl in H.
  - apply Ok_inj in H. subst r. reflexivity.
  - apply bind_Ok in H. destruct H as (a & _ & H).
    apply bind_Ok in H. destruct H as (t & Ht & H).
    apply Ok_inj in H. subst r. simpl. f_equal. apply IH. exact Ht.
Qed.

Lemma collect_Ok {A : Type} (l : list (result A)) :
  Forall (fun r => returns r) l -> returns (collect l).
Proof.
  induction 1 as [| x l [a ->] Hl [t Ht]]; simpl.
  - eexists. reflexivity.
  - rewrite Ht. simpl. eexists. reflexivity.
Qed.

Lemma py_max_Ok (l : list Q) : l <> [] -> returns (py_max l).
Proof.
  destruct l as [| x l]; [congruence |]. intros _. eexists. reflexivity.
Qed.

Lemma slice_second_nonempty {A : Type} (l : list A) (sr k : Z) :
  0 < sr -> 0 <= k -> k * sr < len l ->
  slice l (k * sr) ((k + 1) * sr) <> [].
Proof.
  intros Hsr Hk Hl C. apply (f_equal (@List.length A)) in C.
  unfold slice, clamp_index, len in *.
  rewrite length_firstn, length_skipn in C. simpl in C.
  destruct (Z.ltb_spec (k * sr) 0) as [E | _]; [nia |].
  destruct (Z.ltb_spec ((k + 1) * sr) 0) as [E | _]; [nia |].
  nia.
Qed.

(** Eight one-second windows need more than seven seconds of trace. *)
Lemma _initializeBuffers_Ok (sr : Z) (ecg : list Q) (q : list Z) :
  0 < sr -> 7 * sr < len ecg -> returns (_initializeBuffers sr ecg q).
Proof.
  intros Hsr Hl. unfold _initializeBuffers.
  destruct (collect_Ok (map (fun start =>
              py_max (slice ecg (start * sr) ((start + 1) * sr)))
              (range 0 8))) as [signal Hs].
  - apply Forall_map. apply Forall_forall. intros k Hk.
    apply in_range in Hk. apply py_max_Ok.
    apply slice_second_nonempty; [exact Hsr | lia | nia].
  - rewrite Hs. simpl. eexists. reflexivity.
Qed.

Lemma check_one_Ok (sr : Z) (ecg : list Q) (st : buffers) (peak next : Z) :
  sr <> 0 -> 0 <= peak < len ecg -> returns (check_one sr ecg st peak next).
Proof.
  intros Hsr Hp. unfold check_one.
  destruct (getitem_in_range ecg peak Hp) as [amplitude ->]. cbn [bind].
  destruct (Z.eqb_spec sr 0) as [E | _]; [contradiction |].
  destruct (ratio_gt _ _); [eexists; reflexivity |].
  destruct (ratio_lt _ _); [eexists; reflexivity |].
  destruct (_ && _); eexists; reflexivity.
Qed.

Lemma check_loop_Ok (sr : Z) (ecg : list Q) (peaks : list Z) :
  sr <> 0 -> Forall (fun p => 0 <= p < len ecg) (removelast peaks) ->
  forall st, returns (check_loop sr ecg peaks st).
Proof.
  intros Hsr. induction peaks as [| peak rest IH]; intros Hf st.
  - eexists. reflexivity.
  - destruct rest as [| next rest'].
    + eexists. reflexivity.
    + change (removelast (peak :: next :: rest'))
        with (peak :: removelast (next :: rest')) in Hf.
      inversion Hf as [| ? ? Hp Hf']; subst.
      cbn [check_loop].
      destruct (check_one_Ok sr ecg st peak next Hsr Hp) as [st1 ->].
      cbn [bind]. apply IH. exact Hf'.
Qed.

(** The classifier does not raise on peaks that are indices of the
    trace. *)
Lemma checkPeaks_Ok (sr : Z) (st : buffers) (peaks : list Z) (ecg : list Q) :
  sr <> 0 -> Forall (fun p => 0 <= p < len ecg) peaks ->
  returns (checkPeaks sr st peaks ecg).
Proof.
  intros Hsr Hf. unfold checkPeaks.
  destruct (check_loop_Ok sr ecg (peaks ++ [Z.of_nat (List.length ecg) - 1]) Hsr)
    with (st := mk_buffers (signal_peak_buffer st) (noise_peak_buffer st)
                           (rr_buffer st) (threshold st) [0]) as [st' ->].
  - rewrite removelast_last. exact Hf.
  - cbn [bind]. eexists. reflexivity.
Qed.

(** From 13 Hz on and with 8 s of filtered trace, the stages after the
    band-pass filter raise in one case only: the integrated trace has
    no strict local maximum, and the exception is the [IndexError] of
    [peakDetect].  Otherwise a heartbeat sequence is returned. *)
Theorem detect_filtered_raises_only_without_peak (sr : Z)
        (filtered_ecg : list Q) :
  13 <= sr -> 8 * sr <= len filtered_ecg ->
  exists int_ecg,
    _mw_integrate sr (map Qabs (diff filtered_ecg)) = Ok int_ecg /\
    List.length int_ecg = (List.length filtered_ecg - 1)%nat /\
    (peak_indices int_ecg = [] ->
     detect_filtered sr filtered_ecg = Raise IndexError) /\
    (peak_indices int_ecg <> [] -> returns (detect_filtered sr filtered_ecg)).
Proof.
  intros Hsr Hlen. unfold len in Hlen.
  assert (Hw : 1 <= window_length sr <= sr).
  { rewrite window_length_floor by lia. split.
    - apply Z.div_le_lower_bound; lia.
    - apply Z.div_le_upper_bound; lia. }
  destruct (_mw_integrate_Ok sr (map Qabs (diff filtered_ecg)))
    as (int_ecg & Hint & Hl).
  { unfold len. rewrite length_map, length_diff. lia. }
  rewrite length_map, length_diff in Hl.
  exists int_ecg. split; [exact Hint |]. split; [exact Hl |].
  unfold detect_filtered. rewrite Hint. cbn [bind].
  destruct (_initializeBuffers_Ok sr int_ecg []) as [st Hst];
    [lia | unfold len; lia |].
  rewrite Hst. cbn [bind]. split.
  - intros E. rewrite (peakDetect_empty sr int_ecg E). reflexivity.
  - intros E. apply (peakDetect_returns_iff sr) in E. destruct E as [peaks Hp].
    rewrite Hp. cbn [bind].
    destruct (checkPeaks_Ok sr st peaks int_ecg) as [st' Hc]; [lia | |].
    + apply Forall_forall. intros p Hin.
      apply (peakDetect_subset sr int_ecg peaks Hp) in Hin.
      apply peak_indices_spec in Hin. unfold len. lia.
    + rewrite Hc. cbn [bind]. eexists. reflexivity.
Qed.

Lemma detect_filtered_raises_only_without_peak_early_beat :
  exists int_ecg,
    _mw_integrate 50 (map Qabs (diff early_beat_filtered)) = Ok int_ecg /\
    List.length int_ecg = (List.length early_beat_filtered - 1)%nat /\
    (peak_indices int_ecg = [] ->
     detect_filtered 50 early_beat_filtered = Raise IndexError) /\
    (peak_indices int_ecg <> [] ->
     returns (detect_filtered 50 early_beat_filtered)).
Proof.
  apply (detect_filtered_raises_only_without_peak 50 early_beat_filtered).
  - lia.
  - vm_compute. discriminate.
Defined.

(** Below 13 Hz the window of 80 ms is empty and the integration
    raises a [ValueError] on every trace that is not. *)
Theorem _mw_integrate_raises_below_13Hz (sr : Z) (ecg : list Q) :
  0 <= sr < 13 -> ecg <> [] ->
  exists msg, _mw_integrate sr ecg = Raise (ValueError msg).
Proof.
  intros Hsr Hne. unfold _mw_integrate.
  assert (Hw : window_length sr = 0).
  { rewrite window_length_floor by lia. apply Z.div_small. lia. }
  rewrite Hw. cbn [Z.eqb andb].
  destruct ecg as [| x ecg]; [congruence |].
  replace (0 <? Z.of_nat (List.length (x :: ecg))) with true
    by (symmetry; apply Z.ltb_lt; simpl; lia).
  eexists. reflexivity.
Qed.

Lemma _mw_integrate_raises_below_13Hz_example :
  exists msg, _mw_integrate 12 [1; 2; 3]%Q = Raise (ValueError msg).
Proof.
  apply (_mw_integrate_raises_below_13Hz 12 [1; 2; 3]%Q).
  - lia.
  - discriminate.
Defined.

(** ** The rolling buffers *)

Lemma length_roll {A : Type} (l : list A) (x : A) :
  l <> [] -> List.length (tl l ++ [x]) = List.length l.
Proof.
  destruct l as [| y l]; [congruence |]. intros _.
  rewrite length_app. simpl. lia.
Qed.


Lemma check_one_holds (n : nat) (sr : Z) (ecg : list Q) (st st' : buffers)
      (peak next : Z) :
  holds n st -> check_one sr ecg st peak next = Ok st' -> holds n st'.
Proof.
  unfold check_one, holds. intros (H1 & H2 & H3) H. apply bind_Ok in H.
  destruct H as (amplitude & _ & H).
  assert (N1 : signal_peak_buffer st <> [])
    by (intros E; rewrite E in H1; discriminate).
  assert (N2 : noise_peak_buffer st <> [])
    by (intros E; rewrite E in H2; discriminate).
  assert (N3 : rr_buffer st <> [])
    by (intros E; rewrite E in H3; discriminate).
  repeat match type of H with
  | (if ?c then _ else _) = _ => destruct c
  end; try discriminate; apply Ok_inj in H; subst st';
    unfold acceptasQRS, acceptasNoise;
    cbn [signal_peak_buffer noise_peak_buffer rr_buffer];
    repeat match goal with
    | |- context [if ?c then _ else _] => destruct c
    end; rewrite ?length_roll by assumption; auto.
Qed.

Lemma check_loop_holds (n : nat) (sr : Z) (ecg : list Q) (peaks : list Z) :
  forall st st', holds n st -> check_loop sr ecg peaks st = Ok st' ->
                 holds n st'.
Proof.
  induction peaks as [| peak rest IH]; intros st st' Hh H.
  - apply Ok_inj in H. subst st'. exact Hh.
  - destruct rest as [| next rest'].
    + apply Ok_inj in H. subst st'. exact Hh.
    + cbn [check_loop] in H. apply bind_Ok in H.
      destruct H as (st1 & H1 & H).
      apply (IH st1 st'); [| exact H].
      exact (check_one_holds n sr ecg st st1 peak next Hh H1).
Qed.

Lemma _initializeBuffers_fields (sr : Z) (ecg : list Q) (q : list Z)
      (st : buffers) :
  _initializeBuffers sr ecg q = Ok st ->
  List.length (signal_peak_buffer st) = 8%nat /\
  noise_peak_buffer st = repeat 0%Q 8 /\
  rr_buffer st = repeat 1 8 /\
  QRSpeaks st = q.
Proof.
  unfold _initializeBuffers. intros H. apply bind_Ok in H.
  destruct H as (signal & Hs & H). apply Ok_inj in H. subst st.
  cbn. apply collect_length in Hs. rewrite length_map, length_range in Hs.
  repeat split. exact Hs.
Qed.

(** The three buffers are rolling buffers of eight slots: after
    [_initializeBuffers] and after any run of [checkPeaks] that follows
    each of them holds exactly eight values. *)
Theorem buffers_keep_eight_slots (sr : Z) (ecg : list Q) (q peaks : list Z)
        (st st' : buffers) :
  _initializeBuffers sr ecg q = Ok st ->
  checkPeaks sr st peaks ecg = Ok st' ->
  List.length (signal_peak_buffer st') = 8%nat /\
  List.length (noise_peak_buffer st') = 8%nat /\
  List.length (rr_buffer st') = 8%nat.
Proof.
  intros Hi Hc. apply _initializeBuffers_fields in Hi.
  destruct Hi as (H1 & H2 & H3 & _).
  unfold checkPeaks in Hc. apply bind_Ok in Hc.
  destruct Hc as (st1 & Hl & Hc). apply Ok_inj in Hc. subst st'.
  cbn [signal_peak_buffer noise_peak_buffer rr_buffer].
  apply (check_loop_holds 7) in Hl; [exact Hl |].
  unfold holds. cbn [signal_peak_buffer noise_peak_buffer rr_buffer].
  rewrite H1, H2, H3. repeat split.
Qed.

Lemma buffers_keep_eight_slots_early_beat :
  exists st st',
    _initializeBuffers 50 early_beat_integrated [] = Ok st /\
    checkPeaks 50 st [1; 103] early_beat_integrated = Ok st' /\
    List.length (signal_peak_buffer st') = 8%nat /\
    List.length (noise_peak_buffer st') = 8%nat /\
    List.length (rr_buffer st') = 8%nat.
Proof.
  destruct (_initializeBuffers 50 early_beat_integrated []) as [st | e] eqn:E0;
    [| vm_compute in E0; discriminate].
  destruct (checkPeaks 50 st [1; 103] early_beat_integrated) as [st' | e] eqn:E1.
  - exists st, st'. split; [reflexivity |]. split; [exact E1 |].
    exact (buffers_keep_eight_slots 50 early_beat_integrated [] [1; 103]
             st st' E0 E1).
  - exfalso. vm_compute in E0. apply Ok_inj in E0. subst st.
    vm_compute in E1. discriminate.
Defined.

Lemma intervals_snoc (acc : list Z) :
  forall q0 p,
    intervals q0 (acc ++ [p]) = intervals q0 acc ++ [p - last (q0 :: acc) 0].
Proof.
  induction acc as [| b acc IH]; intros q0 p.
  - reflexivity.
  - cbn [app intervals]. rewrite IH. reflexivity.
Qed.

Lemma skipn_S_tl {A : Type} (k : nat) (l : list A) :
  skipn (S k) l = tl (skipn k l).
Proof.
  revert l. induction k as [| k IH]; intros [| x l]; try reflexivity.
  change (skipn (S (S k)) (x :: l)) with (skipn (S k) l).
  change (skipn (S k) (x :: l)) with (skipn k l). apply IH.
Qed.

(** Rolling a window of [n] values over a list that has at least [n]. *)
Lemma last_n_snoc {A : Type} (n : nat) (l : list A) (y : A) :
  (n <= List.length l)%nat -> (0 < n)%nat ->
  last_n n (l ++ [y]) = tl (last_n n l) ++ [y].
Proof.
  intros Hn Hp. unfold last_n. rewrite length_app. cbn [List.length].
  replace (List.length l + 1 - n)%nat with (S (List.length l - n)) by lia.
  rewrite skipn_app.
  replace (S (List.length l - n) - List.length l)%nat with 0%nat by lia.
  rewrite skipn_S_tl. reflexivity.
Qed.

Lemma check_one_rr (rr0 : list Z) (q0 : Z) (sr : Z) (ecg : list Q)
      (st st' : buffers) (peak next : Z) :
  List.length rr0 = 8%nat ->
  (exists acc, QRSpeaks st = q0 :: acc /\
               rr_buffer st = last_n 8 (rr0 ++ intervals q0 acc)) ->
  check_one sr ecg st peak next = Ok st' ->
  exists acc, QRSpeaks st' = q0 :: acc /\
              rr_buffer st' = last_n 8 (rr0 ++ intervals q0 acc).
Proof.
  intros Hl (acc & Hq & Hr) H. unfold check_one in H. apply bind_Ok in H.
  destruct H as (amplitude & _ & H).
  assert (HQ : exists acc', QRSpeaks (acceptasQRS st peak amplitude) = q0 :: acc' /\
             rr_buffer (acceptasQRS st peak amplitude)
             = last_n 8 (rr0 ++ intervals q0 acc')).
  { exists (acc ++ [peak]). unfold acceptasQRS. cbn [QRSpeaks rr_buffer].
    rewrite Hq. split; [reflexivity |].
    replace (1 <? List.length ((q0 :: acc) ++ [peak]))%nat with true
      by (symmetry; apply Nat.ltb_lt; rewrite length_app; simpl; lia).
    unfold last_of. rewrite removelast_last, last_last, Hr, intervals_snoc.
    rewrite app_assoc, last_n_snoc; [reflexivity | | lia].
    rewrite length_app. lia. }
  assert (HN : exists acc', QRSpeaks (acceptasNoise st peak amplitude) = q0 :: acc' /\
             rr_buffer (acceptasNoise st peak amplitude)
             = last_n 8 (rr0 ++ intervals q0 acc')).
  { exists acc. split; assumption. }
  repeat match type of H with
  | (if ?c then _ else _) = _ => destruct c
  end; try discriminate; apply Ok_inj in H; subst st'; assumption.
Qed.

Lemma check_loop_rr (rr0 : list Z) (q0 : Z) (sr : Z) (ecg : list Q)
      (peaks : list Z) :
  List.length rr0 = 8%nat ->
  forall st st',
    (exists acc, QRSpeaks st = q0 :: acc /\
                 rr_buffer st = last_n 8 (rr0 ++ intervals q0 acc)) ->
    check_loop sr ecg peaks st = Ok st' ->
    exists acc, QRSpeaks st' = q0 :: acc /\
                rr_buffer st' = last_n 8 (rr0 ++ intervals q0 acc).
Proof.
  intros Hl. induction peaks as [| peak rest IH]; intros st st' Hi H.
  - apply Ok_inj in H. subst st'. exact Hi.
  - destruct rest as [| next rest'].
    + apply Ok_inj in H. subst st'. exact Hi.
    + cbn [check_loop] in H. apply bind_Ok in H.
      destruct H as (st1 & H1 & H).
      apply (IH st1 st'); [| exact H].
      exact (check_one_rr rr0 q0 sr ecg st st1 peak next Hl Hi H1).
Qed.

(** Every accepted heartbeat pushes an interval into the RR buffer, the
    first one too: its interval is measured from sample 0, the
    placeholder that [checkPeaks] puts at the head of the heartbeat
    list.  After a run the buffer holds the last eight values of its
    eight initial ones followed by these intervals. *)
Theorem rr_buffer_after_run (sr : Z) (ecg : list Q) (q peaks : list Z)
        (st st' : buffers) :
  _initializeBuffers sr ecg q = Ok st ->
  checkPeaks sr st peaks ecg = Ok st' ->
  rr_buffer st' = last_n 8 (repeat 1 8 ++ intervals 0 (QRSpeaks st')).
Proof.
  intros Hi Hc. apply _initializeBuffers_fields in Hi.
  destruct Hi as (_ & _ & H3 & _).
  unfold checkPeaks in Hc. apply bind_Ok in Hc.
  destruct Hc as (st1 & Hl & Hc). apply Ok_inj in Hc. subst st'.
  cbn [rr_buffer QRSpeaks].
  apply (check_loop_rr (repeat 1 8) 0) in Hl; [| reflexivity |].
  - destruct Hl as (acc & Hq & Hr). rewrite Hq, Hr. reflexivity.
  - exists []. cbn [QRSpeaks rr_buffer]. rewrite H3. split; reflexivity.
Qed.

Lemma rr_buffer_after_run_early_beat :
  exists st st',
    _initializeBuffers 50 early_beat_integrated [] = Ok st /\
    checkPeaks 50 st [1; 103] early_beat_integrated = Ok st' /\
    QRSpeaks st' = [1; 103] /\
    rr_buffer st' = [1; 1; 1; 1; 1; 1; 1; 102] /\
    rr_buffer st' = last_n 8 (repeat 1 8 ++ intervals 0 (QRSpeaks st')).
Proof.
  destruct (_initializeBuffers 50 early_beat_integrated []) as [st | e] eqn:E0;
    [| vm_compute in E0; discriminate].
  destruct (checkPeaks 50 st [1; 103] early_beat_integrated) as [st' | e] eqn:E1.
  - exists st, st'. split; [reflexivity |]. split; [exact E1 |].
    split; [| split].
    + vm_compute in E0. apply Ok_inj in E0. subst st.
      vm_compute in E1. apply Ok_inj in E1. subst st'. reflexivity.
    + vm_compute in E0. apply Ok_inj in E0. subst st.
      vm_compute in E1. apply Ok_inj in E1. subst st'. reflexivity.
    + exact (rr_buffer_after_run 50 early_beat_integrated [] [1; 103]
               st st' E0 E1).
  - exfalso. vm_compute in E0. apply Ok_inj in E0. subst st.
    vm_compute in E1. discriminate.
Defined.

(** ** The initial buffers *)

Lemma fold_max_spec (r : list Q) :
  forall x,
    let m := fold_left (fun m y => if Qlt_bool m y then y else m) r x in
    (m = x \/ In m r) /\ (x <= m)%Q /\ forall v, In v r -> (v <= m)%Q.
Proof.
  induction r as [| y r IH]; intros x; cbn [fold_left].
  - split; [left; reflexivity |]. split; [apply Qle_refl | intros v []].
  - specialize (IH (if Qlt_bool x y then y else x)). cbv zeta in IH.
    destruct IH as (Hin & Hle & Hall).
    destruct (Qlt_bool x y) eqn:E.
    + apply Qlt_bool_iff in E. split; [| split].
      * destruct Hin as [-> | Hin]; right; [left; reflexivity | right; exact Hin].
      * eapply Qle_trans; [apply Qlt_le_weak; exact E | exact Hle].
      * intros v [<- | Hv]; [exact Hle | apply Hall; exact Hv].
    + assert (Hyx : (y <= x)%Q).
      { apply Qnot_lt_le. intros C. apply Qlt_bool_iff in C. congruence. }
      split; [| split].
      * destruct Hin as [-> | Hin]; [left; reflexivity | right; right; exact Hin].
      * exact Hle.
      * intros v [<- | Hv]; [eapply Qle_trans; eassumption | apply Hall; exact Hv].
Qed.

(** [max] returns an element of the sequence that no other exceeds. *)
Lemma py_max_spec (l : list Q) (m : Q) :
  py_max l = Ok m -> In m l /\ forall v, In v l -> (v <= m)%Q.
Proof.
  destruct l as [| x r]; [discriminate |]. intros H. apply Ok_inj in H.
  destruct (fold_max_spec r x) as (Hin & Hle & Hall). rewrite H in *.
  split.
  - destruct Hin as [-> | Hin]; [left; reflexivity | right; exact Hin].
  - intros v [<- | Hv]; [exact Hle | apply Hall; exact Hv].
Qed.

Lemma collect_Forall2 {A B : Type} (f : A -> result B) (l : list A)
      (r : list B) :
  collect (map f l) = Ok r -> Forall2 (fun x y => f x = Ok y) l r.
Proof.
  revert r. induction l as [| x l IH]; intros r H; simpl in H.
  - apply Ok_inj in H. subst r. constructor.
  - apply bind_Ok in H. destruct H as (a & Ha & H).
    apply bind_Ok in H. destruct H as (t & Ht & H).
    apply Ok_inj in H. subst r. constructor; [exact Ha | apply IH; exact Ht].
Qed.

(** The signal buffer starts with the maximum of each of the first
    eight one-second windows of the trace, and the threshold starts at
    31.25 percent of their mean: the noise buffer starts at zero. *)
Theorem initial_threshold_from_window_maxima (sr : Z) (ecg : list Q)
        (q : list Z) (st : buffers) :
  _initializeBuffers sr ecg q = Ok st ->
  Forall2 (fun start m =>
             In m (slice ecg (start * sr) ((start + 1) * sr)) /\
             forall v, In v (slice ecg (start * sr) ((start + 1) * sr)) ->
                       (v <= m)%Q)
          (range 0 8) (signal_peak_buffer st) /\
  (threshold st == 0.3125 * mean (signal_peak_buffer st))%Q.
Proof.
  unfold _initializeBuffers. intros H. apply bind_Ok in H.
  destruct H as (signal & Hs & H). apply Ok_inj in H. subst st.
  cbn [_updateThreshold signal_peak_buffer noise_peak_buffer threshold].
  split.
  - apply collect_Forall2 in Hs.
    eapply Forall2_impl; [| exact Hs]. intros start m Hm.
    apply py_max_spec. exact Hm.
  - unfold threshold_of.
    assert (Hn : (mean (repeat 0 8) == 0)%Q) by reflexivity.
    rewrite Hn. ring.
Qed.

Lemma initial_threshold_from_window_maxima_early_beat :
  exists st,
    _initializeBuffers 50 early_beat_integrated [] = Ok st /\
    Forall2 (fun start m =>
               In m (slice early_beat_integrated (start * 50) ((start + 1) * 50)) /\
               forall v,
                 In v (slice early_beat_integrated (start * 50) ((start + 1) * 50)) ->
                 (v <= m)%Q)
            (range 0 8) (signal_peak_buffer st) /\
    (threshold st == 0.3125 * mean (signal_peak_buffer st))%Q.
Proof.
  destruct (_initializeBuffers 50 early_beat_integrated []) as [st | e] eqn:E0;
    [| vm_compute in E0; discriminate].
  exists st. split; [reflexivity |].
  exact (initial_threshold_from_window_maxima 50 early_beat_integrated [] st E0).
Defined.

(** ** Classification of one candidate *)

(** With a positive threshold a candidate above it is a heartbeat and a
    candidate below half of it is noise; with a threshold of zero (a
    trace flat over its first eight seconds) every candidate of
    positive amplitude is a heartbeat. *)
Theorem check_one_by_amplitude (sr : Z) (ecg : list Q) (st : buffers)
        (peak next : Z) (amplitude : Q) :
  getitem ecg peak = Ok amplitude ->
  ((0 < threshold st)%Q -> (threshold st < amplitude)%Q ->
   check_one sr ecg st peak next = Ok (acceptasQRS st peak amplitude)) /\
  ((0 < threshold st)%Q -> (2 * amplitude < threshold st)%Q ->
   check_one sr ecg st peak next = Ok (acceptasNoise st peak amplitude)) /\
  ((threshold st == 0)%Q -> (0 < amplitude)%Q ->
   check_one sr ecg st peak next = Ok (acceptasQRS st peak amplitude)).
Proof.
  intros Hg. unfold check_one. rewrite Hg. cbn [bind].
  split; [| split].
  - intros Ht Ha. unfold np_div.
    destruct (Qeq_bool (threshold st) 0) eqn:E.
    { apply Qeq_bool_eq in E. rewrite E in Ht. exfalso. exact (Qlt_irrefl _ Ht). }
    cbn [ratio_gt].
    replace (Qlt_bool 1 (amplitude / threshold st)) with true; [reflexivity |].
    symmetry. apply Qlt_bool_iff. apply Qlt_shift_div_l; [exact Ht |].
    rewrite Qmult_1_l. exact Ha.
  - intros Ht Ha. unfold np_div.
    destruct (Qeq_bool (threshold st) 0) eqn:E.
    { apply Qeq_bool_eq in E. rewrite E in Ht. exfalso. exact (Qlt_irrefl _ Ht). }
    cbn [ratio_gt ratio_lt].
    assert (Hr : (amplitude / threshold st < 0.5)%Q).
    { apply Qlt_shift_div_r; [exact Ht |].
      apply Qmult_lt_l with (z := 2%Q); [reflexivity |].
      setoid_replace (2 * (0.5 * threshold st))%Q with (threshold st) by ring.
      exact Ha. }
    replace (Qlt_bool 1 (amplitude / threshold st)) with false.
    + replace (Qlt_bool (amplitude / threshold st) 0.5) with true; [reflexivity |].
      symmetry. apply Qlt_bool_iff. exact Hr.
    + symmetry. apply not_true_is_false. intros C. apply Qlt_bool_iff in C.
      assert (H1 : (1 < 0.5)%Q) by (eapply Qlt_trans; eassumption).
      discriminate H1.
  - intros Ht Ha. unfold np_div.
    rewrite (Qeq_eq_bool _ _ Ht).
    replace (Qlt_bool 0 amplitude) with true
      by (symmetry; apply Qlt_bool_iff; exact Ha).
    reflexivity.
Qed.

Lemma check_one_by_amplitude_example :
  getitem [0; 3; 0]%Q 1 = Ok 3%Q /\
  (let st := mk_buffers (repeat 8%Q 8) (repeat 0%Q 8) (repeat 1 8) 2.5%Q [0] in
   ((0 < threshold st)%Q -> (threshold st < 3)%Q ->
    check_one 50 [0; 3; 0]%Q st 1 2 = Ok (acceptasQRS st 1 3%Q)) /\
   ((0 < threshold st)%Q -> (2 * 3 < threshold st)%Q ->
    check_one 50 [0; 3; 0]%Q st 1 2 = Ok (acceptasNoise st 1 3%Q)) /\
   ((threshold st == 0)%Q -> (0 < 3)%Q ->
    check_one 50 [0; 3; 0]%Q st 1 2 = Ok (acceptasQRS st 1 3%Q))).
Proof.
  split; [reflexivity |].
  apply (check_one_by_amplitude 50 [0; 3; 0]%Q
           (mk_buffers (repeat 8%Q 8) (repeat 0%Q 8) (repeat 1 8) 2.5%Q [0])
           1 2 3%Q).
  reflexivity.
Defined.

(** ** Runs of the reconciliation loop *)

Lemma count_le_length (f : Z -> bool) (l : list Z) :
  (count f l <= List.length l)%nat.
Proof. unfold count. apply filter_length_le. Qed.

Lemma match_step_agrees (sr : Z) (Nleads : nat) (s : reconciler) :
  (0 < Nleads)%nat ->
  agrees sr Nleads (row (peaks s) (current_peak s)) ->
  match_step sr Nleads s =
  Ok (mk_reconciler (peaks s) (current_peak s + 1)
        (consensus s ++ [consensus_beat (row (peaks s) (current_peak s))])).
Proof.
  intros HN [Hi Ho]. unfold match_step.
  destruct (row (peaks s) (current_peak s)) as [| x rest] eqn:E.
  - unfold near_inner, count in Hi. simpl in Hi. lia.
  - rewrite Hi, Ho, Nat.eqb_refl. reflexivity.
Qed.

Lemma row_middle (done : matrix) (x : list Z) (rest : matrix) :
  row (done ++ x :: rest) (List.length done) = x.
Proof. unfold row. apply nth_middle. Qed.

(** Rows that agree are accepted one per turn. *)
Lemma match_loop_skip (sr : Z) (Nleads : nat) (agreeing : matrix) :
  (0 < Nleads)%nat -> Forall (agrees sr Nleads) agreeing ->
  forall (done tail : matrix) (cons : list Z) (fuel : nat),
    match_loop (List.length agreeing + fuel) sr Nleads
      (mk_reconciler (done ++ agreeing ++ tail) (List.length done) cons)
    = match_loop fuel sr Nleads
        (mk_reconciler (done ++ agreeing ++ tail)
           (List.length done + List.length agreeing)
           (cons ++ map consensus_beat agreeing)).
Proof.
  intros HN. induction 1 as [| x agreeing Hx Hf IH]; intros done tail cons fuel.
  - cbn [List.length Nat.add map app]. rewrite Nat.add_0_r, app_nil_r.
    reflexivity.
  - cbn [List.length Nat.add match_loop peaks current_peak].
    replace (List.length done <? List.length (done ++ (x :: agreeing) ++ tail))%nat
      with true
      by (symmetry; apply Nat.ltb_lt; rewrite !length_app; simpl; lia).
    rewrite match_step_agrees; cbn [peaks current_peak consensus].
    2: exact HN.
    2:{ cbn [app]. rewrite row_middle. exact Hx. }
    cbn [app]. rewrite row_middle.
    replace (done ++ x :: agreeing ++ tail)
      with ((done ++ [x]) ++ agreeing ++ tail)
      by (rewrite <- app_assoc; reflexivity).
    replace (List.length done + 1)%nat with (List.length (done ++ [x]))
      by (rewrite length_app; reflexivity).
    rewrite IH. rewrite length_app. cbn [List.length map].
    rewrite <- (app_assoc done [x]). cbn [app].
    f_equal. f_equal.
    + lia.
    + rewrite <- app_assoc. reflexivity.
Qed.

Lemma match_all_agree (fuel : nat) (sr : Z) (m : matrix) :
  hd [] m <> [] ->
  Forall (agrees sr (List.length (hd [] m))) m ->
  (List.length m < fuel)%nat ->
  multilead_peak_match fuel sr m = Some (Ok (map consensus_beat m)).
Proof.
  intros Hne Hf Hfuel. unfold multilead_peak_match.
  set (Nleads := List.length (hd [] m)) in *.
  assert (HN : (0 < Nleads)%nat).
  { unfold Nleads. destruct (hd [] m); [congruence | simpl; lia]. }
  replace fuel with (List.length m + (fuel - List.length m))%nat by lia.
  pose proof (match_loop_skip sr Nleads m HN Hf [] [] []
                (fuel - List.length m)) as H.
  cbn [app List.length] in H. rewrite app_nil_r in H. rewrite H.
  destruct (fuel - List.length m)%nat as [| f] eqn:E; [lia |].
  cbn [match_loop peaks current_peak consensus Nat.add].
  rewrite Nat.ltb_irrefl. reflexivity.
Qed.

(** When every row agrees the consensus is the sequence of the row
    medians, found in one turn per row, and the array is left as it
    was. *)
Theorem multilead_peak_match_all_agree (fuel : nat) (sr : Z) (m : matrix) :
  hd [] m <> [] ->
  Forall (agrees sr (List.length (hd [] m))) m ->
  (List.length m < fuel)%nat ->
  multilead_peak_match fuel sr m = Some (Ok (map consensus_beat m)).
Proof. apply match_all_agree. Qed.

Lemma multilead_peak_match_all_agree_example :
  multilead_peak_match 3 1000 [[100; 110; 120]; [1100; 1100; 1189]]
  = Some (Ok (map consensus_beat [[100; 110; 120]; [1100; 1100; 1189]])).
Proof.
  apply (multilead_peak_match_all_agree 3 1000
           [[100; 110; 120]; [1100; 1100; 1189]]).
  - discriminate.
  - repeat constructor.
  - simpl. lia.
Defined.

Lemma ms90_pos (sr : Z) : 0 < sr -> (0 < ms90 sr)%Q.
Proof.
  intros H. unfold ms90, Qlt, Qdiv, Qmult, Qinv, inject_Z.
  cbn [Qnum Qden]. lia.
Qed.

Lemma Qlt_plus_pos (x e : Q) : (0 < e)%Q -> (x < x + e)%Q.
Proof.
  intros H. rewrite <- (Qplus_0_r x) at 1. apply Qplus_lt_r. exact H.
Qed.

Lemma Qlt_minus_pos (x e : Q) : (0 < e)%Q -> (x - e < x)%Q.
Proof.
  intros H. apply Qplus_lt_l with (z := e).
  setoid_replace (x - e + e)%Q with x by ring. apply Qlt_plus_pos. exact H.
Qed.

(** A row of one lead agrees with itself, and so does a row of two
    equal values. *)
Lemma agrees_single (sr x : Z) : 0 < sr -> agrees sr 1 [x].
Proof.
  intros H. pose proof (ms90_pos sr H) as Hp.
  unfold agrees, near_inner, near_outer, count, row_min, row_max.
  cbn [filter hd tl fold_left].
  replace (Qlt_bool (inject_Z x) (inject_Z x + ms90 sr)) with true
    by (symmetry; apply Qlt_bool_iff, Qlt_plus_pos, Hp).
  replace (Qlt_bool (inject_Z x - ms90 sr) (inject_Z x)) with true
    by (symmetry; apply Qlt_bool_iff, Qlt_minus_pos, Hp).
  split; reflexivity.
Qed.

Lemma agrees_pair (sr x : Z) : 0 < sr -> agrees sr 2 [x; x].
Proof.
  intros H. pose proof (ms90_pos sr H) as Hp.
  unfold agrees, near_inner, near_outer, count, row_min, row_max.
  cbn [filter hd tl fold_left]. rewrite Z.min_id, Z.max_id.
  replace (Qlt_bool (inject_Z x) (inject_Z x + ms90 sr)) with true
    by (symmetry; apply Qlt_bool_iff, Qlt_plus_pos, Hp).
  replace (Qlt_bool (inject_Z x - ms90 sr) (inject_Z x)) with true
    by (symmetry; apply Qlt_bool_iff, Qlt_minus_pos, Hp).
  split; reflexivity.
Qed.

Lemma consensus_beat_single (x : Z) : consensus_beat [x] = x.
Proof. unfold consensus_beat, median. cbn. apply py_int_Z. Qed.

Lemma consensus_beat_pair (x : Z) : consensus_beat [x; x] = x.
Proof.
  unfold consensus_beat, median, sort. cbn [fold_right insert_sorted].
  rewrite Z.leb_refl.
  change (py_int ((inject_Z x + inject_Z x) / 2) = x).
  rewrite (py_int_comp _ (inject_Z x)); [apply py_int_Z | field].
Qed.

Lemma transpose_single (l : list Z) :
  transpose (List.length l) [l] = map (fun x => [x]) l.
Proof.
  unfold transpose. induction l as [| x l IH]; [reflexivity |].
  cbn [List.length seq map nth]. f_equal.
  rewrite <- seq_shift, map_map. exact IH.
Qed.

Lemma transpose_pair (c1 : list Z) :
  forall c2, List.length c1 = List.length c2 ->
  transpose (List.length c1) [c1; c2] = map2 (fun x y => [x; y]) c1 c2.
Proof.
  unfold transpose. induction c1 as [| x c1 IH]; intros [| y c2] H;
    try discriminate; [reflexivity |].
  cbn [List.length seq map nth map2]. f_equal.
  rewrite <- seq_shift, map_map. apply IH. simpl in H. lia.
Qed.

Lemma map2_app {A B C : Type} (f : A -> B -> C) (l1 : list A) :
  forall (l2 : list B) (r1 : list A) (r2 : list B),
    List.length l1 = List.length l2 ->
    map2 f (l1 ++ r1) (l2 ++ r2) = map2 f l1 l2 ++ map2 f r1 r2.
Proof.
  induction l1 as [| x l1 IH]; intros [| y l2] r1 r2 H; try discriminate.
  - reflexivity.
  - cbn [app map2]. f_equal. apply IH. simpl in H. lia.
Qed.

Lemma reconcile_single (fuel : nat) (sr : Z) (l : list Z) :
  0 < sr -> (List.length l < fuel)%nat ->
  reconcile_leads fuel sr [l] = Some (Ok l).
Proof.
  intros Hsr Hfuel. unfold reconcile_leads, _zeropad.
  cbn [map fold_right]. rewrite Nat.max_0_r, Nat.sub_diag.
  cbn [repeat]. rewrite app_nil_r, transpose_single.
  destruct l as [| x l].
  - destruct fuel as [| fuel]; [simpl in Hfuel; lia | reflexivity].
  - rewrite match_all_agree.
    + rewrite map_map. rewrite (map_ext _ (fun x => x)) by
        (intros y; apply consensus_beat_single).
      rewrite map_id. reflexivity.
    + cbn. discriminate.
    + change (List.length (hd [] (map (fun x => [x]) (x :: l)))) with 1%nat.
      apply Forall_forall. intros r Hr.
      apply (in_map_iff (fun x => [x])) in Hr. destruct Hr as [y [<- _]].
      apply agrees_single. exact Hsr.
    + rewrite length_map. exact Hfuel.
Qed.

(** A single lead is its own consensus. *)
Theorem reconcile_leads_single_lead (fuel : nat) (sr : Z) (l : list Z) :
  0 < sr -> (List.length l < fuel)%nat ->
  reconcile_leads fuel sr [l] = Some (Ok l).
Proof. apply reconcile_single. Qed.

Lemma reconcile_leads_single_lead_example :
  reconcile_leads 5 1000 [[100; 900; 1700]] = Some (Ok [100; 900; 1700]).
Proof.
  apply (reconcile_leads_single_lead 5 1000 [100; 900; 1700]).
  - lia.
  - simpl. lia.
Defined.

(** ** Turns that change nothing *)

Lemma match_loop_mono (sr : Z) (Nleads : nat) (fuel : nat) :
  forall (s : reconciler) (r : result (list Z)),
    match_loop fuel sr Nleads s = Some r ->
    forall k, match_loop (fuel + k) sr Nleads s = Some r.
Proof.
  induction fuel as [| fuel IH]; intros s r H k; [discriminate |].
  cbn [Nat.add match_loop] in *.
  destruct (current_peak s <? List.length (peaks s))%nat; [| exact H].
  destruct (match_step sr Nleads s) as [s' | e]; [| exact H].
  apply IH. exact H.
Qed.

Lemma match_loop_stuck (sr : Z) (Nleads : nat) (s : reconciler) :
  match_step sr Nleads s = Ok s ->
  (current_peak s < List.length (peaks s))%nat ->
  forall fuel, match_loop fuel sr Nleads s = None.
Proof.
  intros Hstep Hcur fuel. induction fuel as [| fuel IH]; [reflexivity |].
  cbn [match_loop]. apply Nat.ltb_lt in Hcur. rewrite Hcur, Hstep. exact IH.
Qed.

Lemma col_assign_nil (m : matrix) (j : nat) :
  forall lo, col_assign m j lo [] = m.
Proof.
  induction m as [| r m IH]; intros [| lo]; cbn [col_assign]; try reflexivity.
  rewrite IH. reflexivity.
Qed.

Lemma set_nth_middle {A : Type} (done : list A) (x y : A) (rest : list A) :
  set_nth (done ++ x :: rest) (List.length done) y = done ++ y :: rest.
Proof.
  induction done as [| d done IH]; [reflexivity |].
  cbn [app List.length set_nth]. rewrite IH. reflexivity.
Qed.

Lemma Qlt_bool_false (x y : Q) : (y <= x)%Q -> Qlt_bool x y = false.
Proof.
  intros H. unfold Qlt_bool. apply negb_false_iff, Qle_bool_iff. exact H.
Qed.

(** A last row [[a; 0]] with [a] at 90 ms or later: one value is near
    the least, one near the greatest, and the branch "min is wrong"
    rewrites the zero with a zero. *)
Lemma last_row_stuck (sr a : Z) (rows : matrix) (cons : list Z) :
  0 < sr -> (ms90 sr <= inject_Z a)%Q ->
  match_step sr 2 (mk_reconciler (rows ++ [[a; 0]]) (List.length rows) cons)
  = Ok (mk_reconciler (rows ++ [[a; 0]]) (List.length rows) cons).
Proof.
  intros Hsr Ha. pose proof (ms90_pos sr Hsr) as Hp.
  assert (Ha0 : 0 < a).
  { assert (H : (0 < inject_Z a)%Q) by (eapply Qlt_le_trans; eassumption).
    unfold Qlt, inject_Z in H. cbn [Qnum Qden] in H. lia. }
  assert (Hi : near_inner sr [a; 0] = 1%nat).
  { unfold near_inner, count, row_min. cbn [hd tl fold_left filter].
    rewrite Z.min_r by lia.
    rewrite (Qlt_bool_false (inject_Z a)) by
      (setoid_replace (inject_Z 0 + ms90 sr)%Q with (ms90 sr)
         by (unfold inject_Z; ring); exact Ha).
    replace (Qlt_bool (inject_Z 0) (inject_Z 0 + ms90 sr)) with true
      by (symmetry; apply Qlt_bool_iff, Qlt_plus_pos, Hp).
    reflexivity. }
  assert (Ho : near_outer sr [a; 0] = 1%nat).
  { unfold near_outer, count, row_max. cbn [hd tl fold_left filter].
    rewrite Z.max_l by lia.
    replace (Qlt_bool (inject_Z a - ms90 sr) (inject_Z a)) with true
      by (symmetry; apply Qlt_bool_iff, Qlt_minus_pos, Hp).
    rewrite (Qlt_bool_false (inject_Z a - ms90 sr)) by
      (apply Qplus_le_l with (z := ms90 sr);
       setoid_replace (inject_Z a - ms90 sr + ms90 sr)%Q with (inject_Z a)
         by ring;
       setoid_replace (inject_Z 0 + ms90 sr)%Q with (ms90 sr)
         by (unfold inject_Z; ring); exact Ha).
    reflexivity. }
  assert (Hm : argmin [a; 0] = 1%nat).
  { unfold argmin, row_min. cbn [hd tl fold_left index_of].
    rewrite Z.min_r by lia.
    destruct (Z.eqb_spec a 0) as [E | _]; [lia | reflexivity]. }
  unfold match_step. cbn [peaks current_peak consensus].
  rewrite row_middle, Hi, Ho, Hm. cbn [Nat.eqb Nat.ltb Nat.leb andb].
  do 2 f_equal. unfold pull_up.
  replace (col_slice (rows ++ [[a; 0]]) 1 (List.length rows + 1)
             (List.length (rows ++ [[a; 0]]))) with (@nil Z).
  2:{ unfold col_slice. rewrite length_app. cbn [List.length].
      rewrite Nat.sub_diag. reflexivity. }
  rewrite col_assign_nil. unfold set_cell.
  rewrite length_app. cbn [List.length].
  replace (List.length rows + 1 - 1)%nat with (List.length rows) by lia.
  rewrite row_middle. cbn [set_nth]. apply set_nth_middle.
Qed.

Lemma never_ends_matrix (sr a : Z) (rows : matrix) :
  0 < sr -> (ms90 sr <= inject_Z a)%Q -> Forall (agrees sr 2) rows ->
  forall fuel,
    match_loop fuel sr 2 (mk_reconciler (rows ++ [[a; 0]]) 0 []) = None.
Proof.
  intros Hsr Ha Hf fuel.
  assert (Hstuck : forall f,
    match_loop (List.length rows + f) sr 2
      (mk_reconciler (rows ++ [[a; 0]]) 0 []) = None).
  { intros f.
    pose proof (match_loop_skip sr 2 rows (Nat.lt_0_succ 1) Hf [] [[a; 0]] []
                  f) as H.
    cbn [app List.length Nat.add] in H. rewrite H.
    apply match_loop_stuck.
    - apply last_row_stuck; assumption.
    - cbn [peaks current_peak]. rewrite length_app. simpl. lia. }
  destruct (le_lt_dec (List.length rows) fuel) as [Hle | Hlt].
  - replace fuel with (List.length rows + (fuel - List.length rows))%nat
      by lia.
    apply Hstuck.
  - destruct (match_loop fuel sr 2 _) as [r |] eqn:E; [| reflexivity].
    apply match_loop_mono with (k := (List.length rows - fuel)%nat) in E.
    replace (fuel + (List.length rows - fuel))%nat
      with (List.length rows + 0)%nat in E by lia.
    rewrite Hstuck in E. discriminate.
Qed.

(** When one of two leads has one beat more than the other, at 90 ms or
    later, and the beats before it agree pairwise, the reconciliation
    never ends: the last row holds the extra beat and a fill zero, the
    branch "min is wrong" writes a zero over the zero, and the row is
    tried again for ever. *)
Theorem reconcile_leads_never_ends (sr a : Z) (l1 l2 : list Z) :
  0 < sr -> (ms90 sr <= inject_Z a)%Q ->
  Forall2 (fun x y => agrees sr 2 [x; y]) l1 l2 ->
  forall fuel, reconcile_leads fuel sr [l1 ++ [a]; l2] = None.
Proof.
  intros Hsr Ha Hf fuel.
  pose proof (Forall2_length Hf) as Hlen.
  unfold reconcile_leads, _zeropad. cbn [map fold_right].
  rewrite length_app. cbn [List.length].
  replace (Nat.max (List.length l1 + 1) (Nat.max (List.length l2) 0))
    with (List.length l1 + 1)%nat by lia.
  rewrite Nat.sub_diag.
  replace (List.length l1 + 1 - List.length l2)%nat with 1%nat by lia.
  cbn [repeat]. rewrite app_nil_r.
  replace (List.length l1 + 1)%nat with (List.length (l1 ++ [a]))
    by (rewrite length_app; reflexivity).
  rewrite transpose_pair by (rewrite !length_app; simpl; lia).
  rewrite map2_app by exact Hlen. cbn [map2].
  assert (Hrows : Forall (agrees sr 2) (map2 (fun x y => [x; y]) l1 l2)).
  { clear Hlen. induction Hf as [| x y l1 l2 Hxy Hf IH]; cbn [map2];
      constructor; assumption. }
  unfold multilead_peak_match.
  replace (List.length (hd [] (map2 (fun x y => [x; y]) l1 l2 ++ [[a; 0]])))
    with 2%nat
    by (destruct Hf; reflexivity).
  apply never_ends_matrix; assumption.
Qed.

Lemma reconcile_leads_never_ends_example :
  reconcile_leads 1000 1000 [[100; 900] ++ [1700]; [101; 899]] = None.
Proof.
  apply (reconcile_leads_never_ends 1000 1700 [100; 900] [101; 899]).
  - lia.
  - vm_compute. discriminate.
  - repeat constructor.
Defined.

(** ** The branch taken when the least value is the odd one *)

Lemma fold_left_min_in (l : list Z) :
  forall x, fold_left Z.min l x = x \/ In (fold_left Z.min l x) l.
Proof.
  induction l as [| y l IH]; intros x; simpl.
  - left. reflexivity.
  - destruct (IH (Z.min x y)) as [H | H].
    + rewrite H. destruct (Z.min_spec x y) as [[_ E] | [_ E]]; rewrite E; auto.
    + right. right. exact H.
Qed.

Lemma row_min_in (l : list Z) : l <> [] -> In (row_min l) l.
Proof.
  destruct l as [| x l]; [congruence |]. intros _. unfold row_min. simpl.
  destruct (fold_left_min_in l x) as [H | H]; [left; symmetry | right]; exact H.
Qed.

Lemma argmin_lt (l : list Z) : l <> [] -> (argmin l < List.length l)%nat.
Proof. intros H. apply index_of_lt, row_min_in, H. Qed.

Lemma length_row_col_assign (Nleads : nat) (m : matrix) (j lo : nat)
      (vals : list Z) (r : nat) :
  rectangular Nleads m -> (r < List.length m)%nat ->
  List.length (row (col_assign m j lo vals) r) = Nleads.
Proof.
  intros Hrect Hr. rewrite row_col_assign.
  destruct (_ && _ && _); [rewrite length_set_nth |];
    apply (rectangular_row Nleads m r Hrect Hr).
Qed.

(** The two assignments of the branch "min is wrong", cell by cell. *)
Lemma pull_up_spec (Nleads : nat) (m : matrix) (cur j : nat) :
  rectangular Nleads m -> (cur < List.length m)%nat -> (j < Nleads)%nat ->
  pulled_up m (pull_up m cur j) cur j.
Proof.
  intros Hrect Hcur Hj. unfold pulled_up, pull_up.
  set (vals := col_slice m j (cur + 1) (List.length m)).
  assert (Hlen : List.length vals = (List.length m - (cur + 1))%nat)
    by (apply length_col_slice; lia).
  split; [| split; [| split; [| split]]].
  - rewrite length_set_cell, length_col_assign. reflexivity.
  - intros r k Hk. rewrite cell_set_cell, cell_col_assign.
    destruct (_ && _ && _ && _) eqn:E1; [split_cond E1; lia |].
    destruct (_ && _ && _ && _ && _) eqn:E2; [split_cond E2; lia |].
    reflexivity.
  - intros r Hr. rewrite cell_set_cell, cell_col_assign.
    destruct (_ && _ && _ && _) eqn:E1; [split_cond E1; lia |].
    destruct (_ && _ && _ && _ && _) eqn:E2; [split_cond E2; lia |].
    reflexivity.
  - intros r Hr1 Hr2. rewrite cell_set_cell, cell_col_assign.
    destruct (_ && _ && _ && _) eqn:E1;
      [rewrite length_col_assign in E1; split_cond E1; lia |].
    rewrite (rectangular_row Nleads m r Hrect) by lia.
    destruct (_ && _ && _ && _ && _) eqn:E2.
    + unfold vals. rewrite nth_col_slice by lia. f_equal. lia.
    + split_cond E2. lia.
  - rewrite cell_set_cell, length_col_assign.
    rewrite (length_row_col_assign Nleads) by (trivial; lia).
    destruct (_ && _ && _ && _) eqn:E1; [reflexivity |].
    split_cond E1. lia.
Qed.

(** A row that does not agree, with no more values near its least value
    than near its greatest: the column of the inner lead is pulled one
    row up from the current row on (the value of the current row is
    lost), a zero is written in its last row, and the same row is tried
    again. *)
Theorem match_step_pulls_up (sr : Z) (Nleads : nat) (s : reconciler) :
  rectangular Nleads (peaks s) -> (0 < Nleads)%nat ->
  (current_peak s < List.length (peaks s))%nat ->
  ~ agrees sr Nleads (row (peaks s) (current_peak s)) ->
  (near_inner sr (row (peaks s) (current_peak s)) <=
   near_outer sr (row (peaks s) (current_peak s)))%nat ->
  exists peaks',
    match_step sr Nleads s =
    Ok (mk_reconciler peaks' (current_peak s) (consensus s)) /\
    pulled_up (peaks s) peaks' (current_peak s)
              (argmin (row (peaks s) (current_peak s))).
Proof.
  intros Hrect HN Hcur Hnot Hle.
  pose proof (rectangular_row Nleads _ _ Hrect Hcur) as Hlen.
  unfold match_step, agrees in *.
  set (all_values := row (peaks s) (current_peak s)) in *.
  assert (Hne : all_values <> []).
  { intros E. rewrite E in Hlen. simpl in Hlen. lia. }
  destruct all_values as [| x rest] eqn:Eall; [congruence |].
  rewrite <- Eall in *.
  destruct ((near_inner sr all_values =? near_outer sr all_values)%nat &&
            (near_outer sr all_values =? Nleads)%nat) eqn:E.
  - split_cond E. exfalso. apply Hnot. lia.
  - replace (near_outer sr all_values <? near_inner sr all_values)%nat
      with false by (symmetry; apply Nat.ltb_ge; exact Hle).
    eexists. split; [reflexivity |].
    unfold all_values.
    apply (pull_up_spec Nleads); [exact Hrect | exact Hcur |].
    fold all_values. rewrite <- Hlen. apply argmin_lt. exact Hne.
Qed.

Lemma match_step_pulls_up_extra_beat :
  exists peaks',
    match_step 1000 2 (mk_reconciler [[100; 500]; [500; 900]; [900; 0]] 0 [])
    = Ok (mk_reconciler peaks' 0 []) /\
    pulled_up [[100; 500]; [500; 900]; [900; 0]] peaks' 0
              (argmin (row [[100; 500]; [500; 900]; [900; 0]] 0)).
Proof.
  apply (match_step_pulls_up 1000 2
           (mk_reconciler [[100; 500]; [500; 900]; [900; 0]] 0 [])).
  - repeat constructor.
  - lia.
  - simpl. lia.
  - intros [H _]. vm_compute in H. discriminate.
  - vm_compute. lia.
Defined.

(** ** The shape of the array and the length of the consensus *)

Lemma Forall_set_nth {A : Type} (P : A -> Prop) (l : list A) :
  forall (j : nat) (v : A),
    Forall P l -> ((j < List.length l)%nat -> P v) -> Forall P (set_nth l j v).
Proof.
  induction l as [| x l IH]; intros j v Hl Hv; [constructor |].
  inversion Hl as [| ? ? Hx Hl']; subst. destruct j as [| j]; cbn [set_nth].
  - constructor; [apply Hv; simpl; lia | exact Hl'].
  - constructor; [exact Hx |]. apply IH; [exact Hl' |].
    intros Hj. apply Hv. simpl. lia.
Qed.

Lemma rectangular_col_assign (Nleads : nat) (m : matrix) (j : nat) :
  forall (lo : nat) (vals : list Z),
    rectangular Nleads m -> rectangular Nleads (col_assign m j lo vals).
Proof.
  unfold rectangular. induction m as [| r m IH]; intros lo vals H;
    [constructor |].
  inversion H as [| ? ? Hr Hm]; subst.
  destruct lo as [| lo]; [destruct vals as [| v vals] |]; cbn [col_assign].
  - exact H.
  - constructor; [rewrite length_set_nth; reflexivity | apply IH; exact Hm].
  - constructor; [reflexivity | apply IH; exact Hm].
Qed.

Lemma rectangular_set_cell (Nleads : nat) (m : matrix) (r j : nat) (v : Z) :
  rectangular Nleads m -> rectangular Nleads (set_cell m r j v).
Proof.
  intros H. unfold set_cell. apply Forall_set_nth; [exact H |].
  intros Hr. rewrite length_set_nth. apply rectangular_row; assumption.
Qed.

(** One turn keeps the shape of the array; it either accepts the row,
    with one more beat, or stays on the row. *)
Lemma match_step_shape (sr : Z) (Nleads : nat) (s s' : reconciler) :
  rectangular Nleads (peaks s) -> match_step sr Nleads s = Ok s' ->
  rectangular Nleads (peaks s') /\
  List.length (peaks s') = List.length (peaks s) /\
  ((current_peak s' = S (current_peak s) /\
    List.length (consensus s') = S (List.length (consensus s))) \/
   (current_peak s' = current_peak s /\ consensus s' = consensus s)).
Proof.
  intros Hrect H. unfold match_step in H.
  destruct (row (peaks s) (current_peak s)) as [| x rest]; [discriminate |].
  destruct (_ && _).
  - apply Ok_inj in H. subst s'. cbn [peaks current_peak consensus].
    split; [exact Hrect |]. split; [reflexivity |]. left.
    rewrite length_app. simpl. lia.
  - destruct (_ <? _)%nat; apply Ok_inj in H; subst s';
      cbn [peaks current_peak consensus].
    + unfold push_down. split; [| split; [| right; split; reflexivity]].
      * apply rectangular_set_cell, rectangular_col_assign, Hrect.
      * rewrite length_set_cell, length_col_assign. reflexivity.
    + unfold pull_up. split; [| split; [| right; split; reflexivity]].
      * apply rectangular_set_cell, rectangular_col_assign, Hrect.
      * rewrite length_set_cell, length_col_assign. reflexivity.
Qed.

Lemma match_step_returns (sr : Z) (Nleads : nat) (s : reconciler) :
  rectangular Nleads (peaks s) -> (0 < Nleads)%nat ->
  (current_peak s < List.length (peaks s))%nat ->
  exists s', match_step sr Nleads s = Ok s'.
Proof.
  intros Hrect HN Hcur.
  pose proof (rectangular_row Nleads _ _ Hrect Hcur) as Hlen.
  unfold match_step.
  destruct (row (peaks s) (current_peak s)) as [| x rest];
    [simpl in Hlen; lia |].
  destruct (_ && _); [| destruct (_ <? _)%nat]; eexists; reflexivity.
Qed.

Lemma match_loop_length (sr : Z) (Nleads : nat) (fuel : nat) :
  forall (s : reconciler) (r : result (list Z)),
    rectangular Nleads (peaks s) -> (0 < Nleads)%nat ->
    (current_peak s <= List.length (peaks s))%nat ->
    List.length (consensus s) = current_peak s ->
    match_loop fuel sr Nleads s = Some r ->
    exists out, r = Ok out /\ List.length out = List.length (peaks s).
Proof.
  induction fuel as [| fuel IH]; intros s r Hrect HN Hcur Hcons H;
    [discriminate |].
  cbn [match_loop] in H.
  destruct (current_peak s <? List.length (peaks s))%nat eqn:E.
  - apply Nat.ltb_lt in E.
    destruct (match_step_returns sr Nleads s Hrect HN E) as [s' Hs'].
    rewrite Hs' in H.
    destruct (match_step_shape sr Nleads s s' Hrect Hs')
      as [Hrect' [Hlen' Hturn]].
    rewrite <- Hlen'. apply (IH s' r); try assumption.
    + destruct Hturn as [[-> _] | [-> _]]; lia.
    + destruct Hturn as [[-> ->] | [-> ->]]; lia.
  - apply Nat.ltb_ge in E. injection H as <-. exists (consensus s).
    split; [reflexivity | lia].
Qed.

Lemma rectangular_transpose (n : nat) (cols : list (list Z)) :
  rectangular (List.length cols) (transpose n cols).
Proof.
  unfold rectangular, transpose. apply Forall_forall. intros r Hr.
  apply in_map_iff in Hr. destruct Hr as [i [<- _]]. apply length_map.
Qed.

Lemma length_transpose (n : nat) (cols : list (list Z)) :
  List.length (transpose n cols) = n.
Proof. unfold transpose. rewrite length_map. apply length_seq. Qed.

(** Whenever the reconciliation of at least one lead ends, it ends
    without an exception and returns exactly as many beats as the
    longest lead has, whatever the other leads hold. *)
Theorem reconcile_leads_length (fuel : nat) (sr : Z)
        (qrspeaks : list (list Z)) (r : result (list Z)) :
  qrspeaks <> [] ->
  reconcile_leads fuel sr qrspeaks = Some r ->
  exists out, r = Ok out /\ List.length out = maxlength qrspeaks.
Proof.
  intros Hne H. unfold reconcile_leads in H.
  destruct qrspeaks as [| q qs] eqn:Eq; [congruence |].
  rewrite <- Eq in *. fold (maxlength qrspeaks) in H.
  set (m := transpose (maxlength qrspeaks)
              (map (fun q => _zeropad q (maxlength qrspeaks)) qrspeaks)) in *.
  assert (Hrect : rectangular (List.length qrspeaks) m).
  { unfold m. rewrite <- (length_map
      (fun q => _zeropad q (maxlength qrspeaks)) qrspeaks) at 1.
    apply rectangular_transpose. }
  assert (Hlen : List.length m = maxlength qrspeaks)
    by apply length_transpose.
  assert (HN : (0 < List.length qrspeaks)%nat) by (rewrite Eq; simpl; lia).
  unfold multilead_peak_match in H. rewrite <- Hlen.
  destruct m as [| row0 m'] eqn:Em.
  - destruct fuel as [| fuel]; [discriminate |]. cbn in H.
    injection H as <-. exists []. split; reflexivity.
  - rewrite <- Em in *.
    replace (List.length (hd [] m)) with (List.length qrspeaks) in H.
    2:{ rewrite Em. cbn [hd]. rewrite Em in Hrect.
        inversion Hrect; subst. symmetry. assumption. }
    apply (match_loop_length sr (List.length qrspeaks) fuel
             (mk_reconciler m 0 []) r); cbn [peaks current_peak consensus];
      try assumption; try reflexivity. lia.
Qed.

Lemma reconcile_leads_length_extra_beat :
  exists out, Ok [100; 0] = Ok out /\
              List.length out = maxlength [[100; 400]; [100]; [100]].
Proof.
  apply (reconcile_leads_length 10 1000 [[100; 400]; [100]; [100]]).
  - discriminate.
  - vm_compute. reflexivity.
Defined.

(** ** The length of the filtered signal *)

Lemma clamp_index_range (n i : Z) : 0 <= n -> 0 <= clamp_index n i <= n.
Proof. intros H. unfold clamp_index. destruct (i <? 0); lia. Qed.

Lemma len_slice {A : Type} (l : list A) (a b : Z) :
  len (slice l a b) =
  Z.max 0 (clamp_index (len l) b - clamp_index (len l) a).
Proof.
  unfold slice, len.
  pose proof (clamp_index_range (Z.of_nat (List.length l)) a
                (Nat2Z.is_nonneg _)) as Ha.
  pose proof (clamp_index_range (Z.of_nat (List.length l)) b
                (Nat2Z.is_nonneg _)) as Hb.
  rewrite length_firstn, length_skipn. lia.
Qed.

Lemma clamp_rev_range (n i : Z) : 0 <= n -> -1 <= clamp_rev n i <= n - 1.
Proof.
  intros H. unfold clamp_rev.
  destruct (i <? 0); [destruct (Z.ltb_spec (i + n) 0) | destruct (Z.ltb_spec i 0)];
    try lia;
    [destruct (Z.leb_spec n (i + n)) | destruct (Z.leb_spec n i)]; lia.
Qed.

Lemma len_slice_rev {A : Type} (l : list A) (start stop : Z) :
  len (slice_rev l start stop) =
  Z.max 0 (clamp_rev (len l) start - clamp_rev (len l) stop).
Proof.
  unfold slice_rev, len.
  pose proof (clamp_rev_range (Z.of_nat (List.length l)) start
                (Nat2Z.is_nonneg _)) as Ha.
  pose proof (clamp_rev_range (Z.of_nat (List.length l)) stop
                (Nat2Z.is_nonneg _)) as Hb.
  rewrite length_rev, length_firstn, length_skipn. lia.
Qed.

(** The grown signal: [edge - 1] mirrored samples on each side, but one
    fewer in front when the signal has just [edge] samples. *)
Lemma len_grow (x s : list Q) (edge : Z) :
  6 <= edge -> edge <= len x -> grow x edge = Ok s ->
  len s = len x + 2 * (edge - 1) - (if len x =? edge then 1 else 0).
Proof.
  intros He Hx H. unfold grow in H.
  apply bind_Ok in H. destruct H as (first & _ & H).
  apply bind_Ok in H. destruct H as (final & _ & H).
  apply Ok_inj in H. subst s.
  unfold len at 1. rewrite !length_app, !length_map, !Nat2Z.inj_add.
  fold (len (slice_rev x edge 1)). fold (len (slice_rev x (-1) (- edge))).
  fold (len x). rewrite !len_slice_rev. unfold clamp_rev.
  pose proof (Nat2Z.is_nonneg (List.length x)) as Hx0. fold (len x) in Hx0.
  if_cases; lia.
Qed.

Section FiltfiltLength.

Variable linalg_inv : list (list Q) -> option (list (list Q)).
Variable lfilter :
  list Q -> list Q -> list Q -> list Q -> option (list Q * list Q).

(** [scipy.signal.lfilter] returns as many samples as it is given. *)
Hypothesis lfilter_length :
  forall b a x zi y zf,
    lfilter b a x zi = Some (y, zf) -> List.length y = List.length x.

Lemma lfilter_call_length (b a x zi : list Q) (yz : list Q * list Q) :
  lfilter_call lfilter b a x zi = Ok yz -> len (fst yz) = len x.
Proof.
  unfold lfilter_call. destruct (lfilter b a x zi) as [[y zf] |] eqn:E;
    [| discriminate].
  intros H. apply Ok_inj in H. subst yz. unfold len. cbn [fst].
  f_equal. eapply lfilter_length. exact E.
Qed.

Lemma filtfilt_length (b a : list Q) (samples out : list Q) :
  filtfilt linalg_inv lfilter b a (Nd1 samples) = Ok out ->
  len out = len samples - (if len samples =? 3 * ntaps b a then 1 else 0).
Proof.
  intros H.
  assert (Hlong : 3 * ntaps b a <= len samples).
  { unfold filtfilt, size, ntaps in *. fold (len samples) in H.
    destruct (Z.ltb_spec (len samples) (Z.max (len a) (len b) * 3));
      [discriminate | lia]. }
  assert (Hn : 2 <= ntaps b a).
  { destruct (Z.lt_ge_cases (ntaps b a) 2) as [Hlt | Hge]; [| exact Hge].
    destruct (filtfilt_long_enough linalg_inv lfilter b a samples Hlong)
      as [Hshort _].
    rewrite (Hshort Hlt) in H. discriminate. }
  unfold filtfilt, size, ntaps in *. fold (len samples) in H.
  destruct (Z.ltb_spec (len samples) (Z.max (len a) (len b) * 3));
    [discriminate |].
  set (edge := Z.max (len a) (len b) * 3) in *.
  apply bind_Ok in H. destruct H as (zi & _ & H).
  apply bind_Ok in H. destruct H as (s & Hs & H).
  apply bind_Ok in H. destruct H as (s0 & _ & H).
  apply bind_Ok in H. destruct H as (yz & Hy & H).
  apply bind_Ok in H. destruct H as (ylast & _ & H).
  apply bind_Ok in H. destruct H as (yz' & Hy' & H).
  apply Ok_inj in H. subst out.
  apply lfilter_call_length in Hy, Hy'.
  apply len_grow in Hs; [| lia | lia].
  assert (Hrev : len (rev (fst yz)) = len (fst yz))
    by (unfold len; rewrite length_rev; reflexivity).
  unfold len at 1. rewrite length_rev. fold (len (slice (fst yz') (edge - 1) (- edge + 1))).
  rewrite len_slice. unfold clamp_index.
  replace (3 * Z.max (len a) (len b)) with edge by (unfold edge; lia).
  destruct (Z.eqb_spec (len samples) edge) as [E | E];
    destruct (Z.ltb_spec (- edge + 1) 0); destruct (Z.ltb_spec (edge - 1) 0);
    lia.
Qed.

End FiltfiltLength.

Lemma lfilter_sample_length (b a : list Q) (x : list Q) :
  forall (z ys : list Q),
    List.length (snd (fold_left (lfilter_sample b a) x (z, ys))) =
    (List.length ys + List.length x)%nat.
Proof.
  induction x as [| v x IH]; intros z ys; cbn [fold_left].
  - simpl. lia.
  - unfold lfilter_sample at 2. rewrite IH, length_app. simpl. lia.
Qed.

Lemma lfilter_ref_length (b a x zi y zf : list Q) :
  lfilter_ref b a x zi = Some (y, zf) -> List.length y = List.length x.
Proof.
  unfold lfilter_ref. destruct a as [| a0 a']; [discriminate |].
  destruct (Qeq_bool a0 0); [discriminate |].
  pose proof (lfilter_sample_length
                (map (fun c => (c / a0)%Q) b)
                (map (fun c => (c / a0)%Q) (a0 :: a')) x zi []) as L.
  destruct (fold_left _ x (zi, [])) as [z ys]. cbn [snd] in L.
  intros H. injection H as <- _. rewrite length_map. exact L.
Qed.

(** With a [scipy.signal.lfilter] that returns as many samples as it is
    given, a run of [filtfilt] that returns gives a signal of the length
    of its input, except on an input of exactly
    [3 * max(len(a), len(b))] samples, where the result is one sample
    short. *)
Theorem filtfilt_output_length
        (linalg_inv : list (list Q) -> option (list (list Q)))
        (lfilter : list Q -> list Q -> list Q -> list Q ->
                   option (list Q * list Q))
        (b a : list Q) (samples out : list Q) :
  (forall b a x zi y zf,
     lfilter b a x zi = Some (y, zf) -> List.length y = List.length x) ->
  filtfilt linalg_inv lfilter b a (Nd1 samples) = Ok out ->
  (3 * ntaps b a < len samples -> len out = len samples) /\
  (3 * ntaps b a = len samples -> len out = len samples - 1).
Proof.
  intros Hl H. pose proof (filtfilt_length linalg_inv lfilter Hl b a _ _ H) as L.
  destruct (Z.eqb_spec (len samples) (3 * ntaps b a)); split; lia.
Qed.

Lemma filtfilt_output_length_six_samples :
  (3 * ntaps [1 # 2; 1 # 2]%Q [1; -1 # 4]%Q < len [3; 3; 3; 3; 3; 3]%Q ->
   len [16 # 3; 16 # 3; 16 # 3; 16 # 3; 16 # 3]%Q = len [3; 3; 3; 3; 3; 3]%Q) /\
  (3 * ntaps [1 # 2; 1 # 2]%Q [1; -1 # 4]%Q = len [3; 3; 3; 3; 3; 3]%Q ->
   len [16 # 3; 16 # 3; 16 # 3; 16 # 3; 16 # 3]%Q
   = len [3; 3; 3; 3; 3; 3]%Q - 1).
Proof.
  apply (filtfilt_output_length inv_ref lfilter_ref).
  - exact lfilter_ref_length.
  - vm_compute. reflexivity.
Defined.

(** ** The moving-window integral *)

Lemma nth_map2 {A B C : Type} (f : A -> B -> C) (l : list A) :
  forall (r : list B) (i : nat) (da : A) (db : B) (dc : C),
    (i < List.length l)%nat -> (i < List.length r)%nat ->
    nth i (map2 f l r) dc = f (nth i l da) (nth i r db).
Proof.
  induction l as [| x l IH]; intros [| y r] i da db dc Hl Hr;
    simpl in Hl, Hr; try lia.
  destruct i as [| i]; [reflexivity |]. cbn [map2 nth]. apply IH; lia.
Qed.

Lemma nth_range (lo hi : Z) (i : nat) :
  (i < Z.to_nat (hi - lo))%nat -> nth i (range lo hi) 0 = lo + Z.of_nat i.
Proof.
  intros H. unfold range.
  rewrite (nth_indep _ 0 ((fun k => lo + Z.of_nat k) O))
    by (rewrite length_map, length_seq; exact H).
  rewrite (map_nth (fun k => lo + Z.of_nat k)), seq_nth by exact H.
  reflexivity.
Qed.

Lemma Qsum_app (l r : list Q) : (Qsum (l ++ r) == Qsum l + Qsum r)%Q.
Proof.
  unfold Qsum. induction l as [| x l IH]; cbn [app fold_right].
  - ring.
  - rewrite IH. ring.
Qed.

Lemma firstn_add {A : Type} (a b : nat) (l : list A) :
  firstn (a + b) l = firstn a l ++ firstn b (skipn a l).
Proof.
  revert l. induction a as [| a IH]; intros l; [reflexivity |].
  destruct l as [| x l]; [destruct b; reflexivity |].
  cbn [Nat.add firstn skipn app]. rewrite IH. reflexivity.
Qed.

(** The running sum at sample [k] is the sum of the samples up to
    [k]. *)
Lemma nth_cumsum_from (l : list Q) :
  forall (acc : Q) (k : nat),
    (k < List.length l)%nat ->
    (nth k (cumsum_from acc l) 0 == acc + Qsum (firstn (S k) l))%Q.
Proof.
  unfold Qsum. induction l as [| x l IH]; intros acc k H; [simpl in H; lia |].
  destruct k as [| k]; cbn [cumsum_from nth firstn fold_right].
  - ring.
  - rewrite IH by (simpl in H; lia). cbn [firstn fold_right]. ring.
Qed.

Lemma nth_cumsum (l : list Q) (k : nat) :
  (k < List.length l)%nat ->
  (nth k (cumsum l) 0 == Qsum (firstn (S k) l))%Q.
Proof.
  intros H. unfold cumsum. rewrite nth_cumsum_from by exact H. ring.
Qed.

Lemma _mw_integrate_window (sr : Z) (ecg int_ecg : list Q) (i : nat) :
  0 <= sr -> _mw_integrate sr ecg = Ok int_ecg ->
  (i < List.length ecg)%nat ->
  (nth i int_ecg 0 ==
   mean (window_ending_at (Z.to_nat (window_length sr)) ecg i))%Q.
Proof.
  intros Hsr H Hi. unfold _mw_integrate in H.
  assert (Hw0 : 0 <= window_length sr).
  { rewrite window_length_floor by exact Hsr. apply Z.div_pos; lia. }
  set (w := window_length sr) in *.
  set (n := Z.of_nat (List.length ecg)) in *.
  assert (Hn : Z.of_nat i < n) by (unfold n; lia).
  destruct (((w =? 0) && (0 <? n)) || ((n <? w) && negb ((n =? 0) && (w =? 1))))
    eqn:E; [discriminate |].
  apply Ok_inj in H. subst int_ecg.
  assert (Hw : 1 <= w <= n).
  { apply orb_false_iff in E. destruct E as [E1 E2].
    apply andb_false_iff in E1. apply andb_false_iff in E2.
    rewrite negb_false_iff, andb_true_iff in E2.
    rewrite !Z.eqb_neq, !Z.ltb_ge in *. rewrite !Z.eqb_eq in E2. lia. }
  clear E.
  assert (Hs1 : slice (cumsum ecg) 0 w = firstn (Z.to_nat w) (cumsum ecg)).
  { unfold slice, clamp_index. rewrite length_cumsum. fold n.
    destruct (Z.ltb_spec 0 0); [lia |]. destruct (Z.ltb_spec w 0); [lia |].
    replace (Z.to_nat (Z.max 0 (Z.min n 0))) with O by lia.
    cbn [skipn]. f_equal. lia. }
  assert (Hs2 : slice (cumsum ecg) 0 (- w)
                = firstn (Z.to_nat (n - w)) (cumsum ecg)).
  { unfold slice, clamp_index. rewrite length_cumsum. fold n.
    destruct (Z.ltb_spec 0 0); [lia |]. destruct (Z.ltb_spec (- w) 0); [| lia].
    replace (Z.to_nat (Z.max 0 (Z.min n 0))) with O by lia.
    cbn [skipn]. f_equal. lia. }
  rewrite Hs1, Hs2.
  set (head := map2 (fun c k => (c / inject_Z k)%Q)
                    (firstn (Z.to_nat w) (cumsum ecg)) (range 1 (w + 1))).
  assert (Hhead : List.length head = Z.to_nat w).
  { unfold head. rewrite length_map2, length_firstn, length_cumsum,
      length_range. lia. }
  unfold window_ending_at, mean.
  destruct (le_lt_dec (Z.to_nat w) i) as [Hge | Hlt].
  - rewrite app_nth2 by lia. rewrite Hhead.
    rewrite (nth_map2 _ _ _ _ 0%Q 0%Q)
      by (rewrite ?length_skipn, ?length_firstn, length_cumsum; lia).
    rewrite nth_skipn, nth_firstn.
    replace (i - Z.to_nat w <? Z.to_nat (n - w))%nat with true
      by (symmetry; apply Nat.ltb_lt; lia).
    replace (Z.to_nat w + (i - Z.to_nat w))%nat with i by lia.
    rewrite !nth_cumsum by lia.
    replace (S i - (S i - Z.to_nat w))%nat with (Z.to_nat w) by lia.
    replace (S i - Z.to_nat w)%nat with (S (i - Z.to_nat w)) by lia.
    rewrite length_firstn, length_skipn.
    replace (Nat.min (Z.to_nat w) (List.length ecg - S (i - Z.to_nat w)))
      with (Z.to_nat w) by lia.
    rewrite Z2Nat.id by lia.
    replace (S i) with (S (i - Z.to_nat w) + Z.to_nat w)%nat at 1 by lia.
    rewrite firstn_add, Qsum_app.
    apply Qdiv_comp; [ring | reflexivity].
  - rewrite app_nth1 by lia. unfold head.
    rewrite (nth_map2 _ _ _ _ 0%Q 0 0%Q)
      by (rewrite ?length_firstn, ?length_cumsum, ?length_range; lia).
    rewrite nth_firstn.
    replace (i <? Z.to_nat w)%nat with true
      by (symmetry; apply Nat.ltb_lt; lia).
    rewrite nth_range by lia. rewrite nth_cumsum by lia.
    replace (S i - Z.to_nat w)%nat with O by lia.
    cbn [skipn]. rewrite Nat.sub_0_r, length_firstn.
    replace (Nat.min (S i) (List.length ecg)) with (S i) by lia.
    replace (1 + Z.of_nat i) with (Z.of_nat (S i)) by lia.
    reflexivity.
Qed.

(** Every sample of the integrated trace is the mean of the window of
    80 ms of samples that ends at it; the windows of the first samples
    are cut at the start of the trace. *)
Theorem _mw_integrate_window_mean (sr : Z) (ecg int_ecg : list Q) (i : nat) :
  0 <= sr -> _mw_integrate sr ecg = Ok int_ecg ->
  (i < List.length ecg)%nat ->
  (nth i int_ecg 0 ==
   mean (window_ending_at (Z.to_nat (window_length sr)) ecg i))%Q.
Proof. apply _mw_integrate_window. Qed.

Lemma _mw_integrate_window_mean_example :
  (nth 3 [1; 3 # 2; 5 # 2; 7 # 2; 9 # 2] 0 ==
   mean (window_ending_at (Z.to_nat (window_length 25)) [1; 2; 3; 4; 5] 3))%Q.
Proof.
  apply (_mw_integrate_window_mean 25 [1; 2; 3; 4; 5]%Q).
  - lia.
  - vm_compute. reflexivity.
  - simpl. lia.
Defined.

(** ** Stamps and conversions, further *)

Lemma wfdb_fields_wrap (t : Z) :
  (t + 86400000) / 3600000 mod 24 = t / 3600000 mod 24 /\
  (t + 86400000) / 60000 mod 60 = t / 60000 mod 60 /\
  (t + 86400000) / 1000 mod 60 = t / 1000 mod 60 /\
  (t + 86400000) mod 1000 = t mod 1000.
Proof.
  repeat split.
  - replace (t + 86400000) with (t + 24 * 3600000) by lia.
    rewrite Z.div_add by lia.
    replace (t / 3600000 + 24) with (t / 3600000 + 1 * 24) by lia.
    apply Z_mod_plus_full.
  - replace (t + 86400000) with (t + 1440 * 60000) by lia.
    rewrite Z.div_add by lia.
    replace (t / 60000 + 1440) with (t / 60000 + 24 * 60) by lia.
    apply Z_mod_plus_full.
  - replace (t + 86400000) with (t + 86400 * 1000) by lia.
    rewrite Z.div_add by lia.
    replace (t / 1000 + 86400) with (t / 1000 + 1440 * 60) by lia.
    apply Z_mod_plus_full.
  - replace (t + 86400000) with (t + 86400 * 1000) by lia.
    apply Z_mod_plus_full.
Qed.

Lemma _format_time_wfdb_day (ms : Z) :
  _format_time_wfdb (ms + 86400000) = _format_time_wfdb ms.
Proof.
  unfold _format_time_wfdb.
  destruct (wfdb_fields_wrap ms) as (-> & -> & -> & ->). reflexivity.
Qed.

(** The method of the detector is the module function applied to the
    time of the sample in milliseconds. *)
Lemma _sample_to_time_format (sr sample : Z) :
  _sample_to_time sr sample =
  (time_ms <- _samples_to_ms sample sr ;; _format_time_wfdb time_ms).
Proof.
  unfold _sample_to_time, _samples_to_ms, _format_time_wfdb.
  destruct (sr =? 0); reflexivity.
Qed.

(** The stamps carry no day: a time and the same time 24 hours later
    (86 400 000 ms) get the same stamp, for every integer time. *)
Theorem _format_time_wfdb_wraps_daily (ms : Z) :
  _format_time_wfdb (ms + 86400000) = _format_time_wfdb ms.
Proof. apply _format_time_wfdb_day. Qed.

(** The same for the stamps of samples: at a positive sampling rate a
    sample and the sample one day of recording later get the same
    stamp, and that stamp is the stamp of the sample's time in
    milliseconds, rounded down. *)
Theorem _sample_to_time_wraps_daily (sr sample : Z) :
  0 < sr -> 0 <= sample ->
  _sample_to_time sr sample = _format_time_wfdb (sample * 1000 / sr) /\
  _sample_to_time sr (sample + 86400 * sr) = _sample_to_time sr sample.
Proof.
  intros Hsr Hs. rewrite !_sample_to_time_format.
  rewrite !_samples_to_ms_floor by nia. cbn [bind]. split; [reflexivity |].
  replace ((sample + 86400 * sr) * 1000)
    with (sample * 1000 + 86400000 * sr) by lia.
  rewrite Z.div_add by lia. apply _format_time_wfdb_day.
Qed.

Lemma _sample_to_time_wraps_daily_360 :
  _sample_to_time 360 725 = _format_time_wfdb (725 * 1000 / 360) /\
  _sample_to_time 360 (725 + 86400 * 360) = _sample_to_time 360 725.
Proof. apply (_sample_to_time_wraps_daily 360 725); lia. Defined.

(** From samples to milliseconds and back: the result never exceeds the
    number of samples, falls short of it by less than
    [samplingrate / 1000 + 1] samples (so by one sample at most up to
    1000 Hz), and is exact when the sampling rate divides 1000. *)
Theorem samples_roundtrip (n sr : Z) :
  0 <= n -> 0 < sr ->
  exists ms, _samples_to_ms n sr = Ok ms /\
    _ms_to_samples ms sr <= n /\
    (n - _ms_to_samples ms sr) * 1000 < sr + 1000 /\
    (sr <= 1000 -> n - 1 <= _ms_to_samples ms sr) /\
    ((sr | 1000) -> _ms_to_samples ms sr = n).
Proof.
  intros Hn Hsr. rewrite (_samples_to_ms_floor n sr Hn Hsr).
  exists (n * 1000 / sr). split; [reflexivity |].
  assert (Hms : 0 <= n * 1000 / sr) by (apply Z.div_pos; lia).
  rewrite (_ms_to_samples_floor _ sr Hms Hsr).
  set (ms := n * 1000 / sr) in *. set (back := sr * ms / 1000).
  assert (H1 : sr * ms <= n * 1000 < sr * ms + sr).
  { unfold ms. pose proof (Z.mul_div_le (n * 1000) sr).
    pose proof (Z.mul_succ_div_gt (n * 1000) sr). lia. }
  assert (H2 : 1000 * back <= sr * ms < 1000 * back + 1000).
  { unfold back. pose proof (Z.mul_div_le (sr * ms) 1000).
    pose proof (Z.mul_succ_div_gt (sr * ms) 1000). lia. }
  split; [lia |]. split; [lia |]. split; [lia |].
  intros [k Hk].
  assert (Hms' : ms = n * k).
  { unfold ms. rewrite Hk. rewrite Z.mul_assoc. apply Z.div_mul. lia. }
  unfold back. rewrite Hms'.
  replace (sr * (n * k)) with (n * 1000) by (rewrite Hk; ring).
  apply Z.div_mul. lia.
Qed.

Lemma samples_roundtrip_360 :
  exists ms, _samples_to_ms 1 360 = Ok ms /\
    _ms_to_samples ms 360 <= 1 /\
    (1 - _ms_to_samples ms 360) * 1000 < 360 + 1000 /\
    (360 <= 1000 -> 1 - 1 <= _ms_to_samples ms 360) /\
    ((360 | 1000) -> _ms_to_samples ms 360 = 1).
Proof. apply (samples_roundtrip 1 360); lia. Defined.

(** ** The constructor of the detector *)

Lemma column_vector (samples : list Q) (sr p l : Z) :
  column (mk_detector (map (fun v => [v]) samples) sr p l) 0 = Ok samples /\
  column (mk_detector (map (fun v => [v]) samples) sr p l) (-1) = Ok samples.
Proof.
  unfold column. cbn [data]. rewrite !map_map.
  split; induction samples as [| v samples IH]; cbn [map collect];
    try reflexivity; rewrite IH; reflexivity.
Qed.

Lemma column_vector_out_of_range (v : Q) (samples : list Q) (sr p l lead : Z) :
  lead <> 0 -> lead <> -1 ->
  column (mk_detector (map (fun v => [v]) (v :: samples)) sr p l) lead
  = Raise IndexError.
Proof.
  intros H0 H1. unfold column. cbn [data map collect].
  replace (getitem [v] lead) with (@Raise Q IndexError); [reflexivity |].
  unfold getitem. cbn [List.length]. change (Z.of_nat 1) with 1.
  destruct (Z.ltb_spec lead 0).
  - replace ((0 <=? lead + 1) && (lead + 1 <? 1)) with false; [reflexivity |].
    symmetry. apply andb_false_iff.
    destruct (Z.leb_spec 0 (lead + 1)); [right; apply Z.ltb_ge; lia | now left].
  - replace ((0 <=? lead) && (lead <? 1)) with false; [reflexivity |].
    symmetry. apply andb_false_iff. right. apply Z.ltb_ge. lia.
Qed.

(** A recording given as a vector: an empty one is refused as having
    more columns than rows, one shorter than eight seconds as too
    short, and any other becomes a detector of one lead whose data are
    read back by lead 0; asking it for any lead other than 0 (or -1)
    raises [IndexError]. *)
Theorem QRSDetector_init_vector (samples : list Q) (sr : Z) :
  (samples = [] ->
   QRSDetector_init (Vector samples) sr
   = Raise (ValueError "ECG data has more columns than rows")) /\
  (samples <> [] -> len samples < sr * 8 ->
   QRSDetector_init (Vector samples) sr
   = Raise (ValueError "Length of ECG is less than 8 seconds")) /\
  (samples <> [] -> sr * 8 <= len samples ->
   exists d, QRSDetector_init (Vector samples) sr = Ok d /\
     samplingrate d = sr /\ points d = len samples /\ leads d = 1 /\
     column d 0 = Ok samples /\
     forall lead, lead <> 0 -> lead <> -1 -> column d lead = Raise IndexError).
Proof.
  unfold QRSDetector_init, shape_of, len. split; [| split].
  - intros ->. reflexivity.
  - intros Hne Hshort. destruct samples as [| v samples]; [congruence |].
    destruct (Z.ltb_spec (Z.of_nat (List.length (v :: samples))) 1) as [E | _];
      [simpl in E; lia |].
    destruct (Z.ltb_spec (Z.of_nat (List.length (v :: samples))) (sr * 8));
      [reflexivity | lia].
  - intros Hne Hlong. destruct samples as [| v samples]; [congruence |].
    destruct (Z.ltb_spec (Z.of_nat (List.length (v :: samples))) 1) as [E | _];
      [simpl in E; lia |].
    destruct (Z.ltb_spec (Z.of_nat (List.length (v :: samples))) (sr * 8));
      [lia |].
    eexists. split; [reflexivity |]. cbn [samplingrate points leads].
    repeat split.
    + apply column_vector.
    + intros lead H0 H1. apply column_vector_out_of_range; assumption.
Qed.

(** ** Detection on all leads of a single-lead recording *)

(** The padding length is never below the length of a lead:
    [scipy.zeros] is never asked for a negative number of zeros. *)
Lemma maxlength_ge (qrspeaks : list (list Z)) (q : list Z) :
  In q qrspeaks -> (List.length q <= maxlength qrspeaks)%nat.
Proof.
  unfold maxlength. induction qrspeaks as [| x qs IH]; intros H;
    [destruct H |].
  cbn [map fold_right]. destruct H as [-> | H]; [lia |].
  specialize (IH H). lia.
Qed.

Section OneLead.

Variable _bpfilter : Z -> list Q -> result (list Q).

(** On a recording of one lead at a positive sampling rate, detection
    on all leads gives what detection on lead 0 gives: the same
    heartbeats, or the same exception. *)
Theorem qrs_detect_multiple_leads_one_lead (fuel : nat) (d : QRSDetector) :
  leads d = 1 -> 0 < samplingrate d ->
  (forall beats, qrs_detect _bpfilter d 0 = Ok beats ->
                 (List.length beats < fuel)%nat ->
                 qrs_detect_multiple_leads _bpfilter fuel d []
                 = Some (Ok beats)) /\
  (forall e, qrs_detect _bpfilter d 0 = Raise e ->
             qrs_detect_multiple_leads _bpfilter fuel d []
             = Some (Raise e)).
Proof.
  intros Hl Hsr. unfold qrs_detect_multiple_leads. rewrite Hl.
  change (range 0 1) with [0]. cbn [map collect]. split.
  - intros beats H Hfuel. rewrite H. cbn [bind].
    apply reconcile_single; assumption.
  - intros e H. rewrite H. reflexivity.
Qed.

End OneLead.

Lemma qrs_detect_multiple_leads_one_lead_early_beat :
  qrs_detect pass_through early_beat_detector 0 = Ok [-1; 101] /\
  qrs_detect_multiple_leads pass_through 5 early_beat_detector []
  = Some (Ok [-1; 101]).
Proof.
  split; [vm_compute; reflexivity |].
  apply (qrs_detect_multiple_leads_one_lead pass_through 5
           early_beat_detector).
  - reflexivity.
  - simpl. lia.
  - vm_compute. reflexivity.
  - simpl. lia.
Defined.
